(** * Verification of the lecture-recording core

    A shallow embedding of two source files of the repository:

    - the [TranscriptionService] class (the continuous transcription
      session manager that wraps the browser's speech recognition), and
    - the [useMediaRecorder] hook (the audio capture controller), with the
      [AudioProcessor] it owns.

    Both are event-driven JavaScript: methods and handlers run to completion
    one at a time, mutate the fields of one object, call into the platform
    (the recognition engine, the timer table, the media recorder) and may
    catch what the platform throws.  The embedding threads an explicit world
    (object fields, pending timers, clock, trace of platform calls and
    callback invocations) through a small state-and-exception monad, and
    takes the platform's answers as inputs. *)

From Stdlib Require Import String List Bool Arith Lia Sorted.
From Stdlib Require Import Strings.Byte ZArith DecimalString DecimalNat.
From Stdlib Require QArith.
Import ListNotations.
Local Open Scope string_scope.
Local Open Scope list_scope.

(** ** JavaScript values the code looks at *)

Module Js.

(** What a [catch (error)] clause can receive: an [Error] object carrying a
    message, or any other value. *)
Inductive thrown : Type :=
| ErrorObject (message : string)
| OtherValue.

(** How a call into the platform ends. *)
Inductive reply : Type :=
| Returns
| Throws (e : thrown).

(** [hay.includes(needle)] *)
Fixpoint includes (needle hay : string) : bool :=
  String.prefix needle hay ||
  match hay with
  | EmptyString => false
  | String _ rest => includes needle rest
  end.

(** [error instanceof Error && error.message.includes(needle)] *)
Definition is_Error_including (needle : string) (e : thrown) : bool :=
  match e with
  | ErrorObject message => includes needle message
  | OtherValue => false
  end.

(** [error instanceof Error && !error.message.includes(needle)] *)
Definition is_Error_not_including (needle : string) (e : thrown) : bool :=
  match e with
  | ErrorObject message => negb (includes needle message)
  | OtherValue => false
  end.

(** [s || fallback] on strings: the empty string is falsy. *)
Definition or_else (s fallback : string) : string :=
  match s with
  | EmptyString => fallback
  | _ => s
  end.

(** Completion of a statement: normal, or abrupt with a thrown value. *)
Inductive completion (A : Type) : Type :=
| Normal (a : A)
| Abrupt (e : thrown).

Arguments Normal {A} a.
Arguments Abrupt {A} e.

End Js.

(** ** The transcription service *)

Module Transcription.
Import Js.

(** The caller's callbacks are opaque; they are told apart by a tag. *)
Definition callback : Type := nat.

(** The [SpeechRecognition] object as far as the class configures it.
    [onstart], [onend] and [onerror] are installed by [setupRecognition]
    for the object's whole life; [onresult] is installed by [start]. *)
Record SpeechRecognition : Type := {
  continuous : bool;
  interimResults : bool;
  lang : string;
  maxAlternatives : nat;
  onresult_installed : bool
}.

(** The private fields of the class. *)
Record TranscriptionService : Type := {
  recognition : option SpeechRecognition;
  isListening : bool;
  isAborting : bool;
  shouldBeListening : bool;
  isPausedState : bool;
  transcript : string;
  interimTranscript : string;
  silenceTimer : option nat;
  restartTimer : option nat;
  lastResultTime : nat;
  currentLanguage : string;
  onResultCallback : option callback;
  onErrorCallback : option callback;
  restartAttempts : nat;
  maxRestartAttempts : nat
}.

(** The three closures the class hands to [setTimeout]. *)
Inductive timer_callback : Type :=
| RestartAfterEnd      (* onend: () => this.attemptRestart(), 100 ms *)
| CooldownElapsed      (* attemptRestart, ceiling reached, 2000 ms *)
| RetryAfterFailure.   (* attemptRestart, start threw, 500 ms *)

(** A pending timeout of the host. *)
Record timer : Type := {
  handle : nat;
  delay : nat;
  due : nat;
  closure : timer_callback
}.

(** What the service does to the outside, in order. *)
Inductive action : Type :=
| EngineStart
| EngineStop
| EngineAbort
| ResultCallback (cb : callback) (interim final : string)
| ErrorCallback (cb : callback) (message : string).

(** The object together with the part of the host it talks to. *)
Record World : Type := {
  svc : TranscriptionService;
  timers : list timer;
  next_handle : nat;
  now : nat;
  trace : list action
}.

(** *** Field updates *)

Definition set_recognition (v : option SpeechRecognition) (s : TranscriptionService) :=
  {| recognition := v; isListening := isListening s; isAborting := isAborting s;
     shouldBeListening := shouldBeListening s; isPausedState := isPausedState s;
     transcript := transcript s; interimTranscript := interimTranscript s;
     silenceTimer := silenceTimer s; restartTimer := restartTimer s;
     lastResultTime := lastResultTime s; currentLanguage := currentLanguage s;
     onResultCallback := onResultCallback s; onErrorCallback := onErrorCallback s;
     restartAttempts := restartAttempts s; maxRestartAttempts := maxRestartAttempts s |}.

Definition set_isListening (v : bool) (s : TranscriptionService) :=
  {| recognition := recognition s; isListening := v; isAborting := isAborting s;
     shouldBeListening := shouldBeListening s; isPausedState := isPausedState s;
     transcript := transcript s; interimTranscript := interimTranscript s;
     silenceTimer := silenceTimer s; restartTimer := restartTimer s;
     lastResultTime := lastResultTime s; currentLanguage := currentLanguage s;
     onResultCallback := onResultCallback s; onErrorCallback := onErrorCallback s;
     restartAttempts := restartAttempts s; maxRestartAttempts := maxRestartAttempts s |}.

Definition set_isAborting (v : bool) (s : TranscriptionService) :=
  {| recognition := recognition s; isListening := isListening s; isAborting := v;
     shouldBeListening := shouldBeListening s; isPausedState := isPausedState s;
     transcript := transcript s; interimTranscript := interimTranscript s;
     silenceTimer := silenceTimer s; restartTimer := restartTimer s;
     lastResultTime := lastResultTime s; currentLanguage := currentLanguage s;
     onResultCallback := onResultCallback s; onErrorCallback := onErrorCallback s;
     restartAttempts := restartAttempts s; maxRestartAttempts := maxRestartAttempts s |}.

Definition set_shouldBeListening (v : bool) (s : TranscriptionService) :=
  {| recognition := recognition s; isListening := isListening s; isAborting := isAborting s;
     shouldBeListening := v; isPausedState := isPausedState s;
     transcript := transcript s; interimTranscript := interimTranscript s;
     silenceTimer := silenceTimer s; restartTimer := restartTimer s;
     lastResultTime := lastResultTime s; currentLanguage := currentLanguage s;
     onResultCallback := onResultCallback s; onErrorCallback := onErrorCallback s;
     restartAttempts := restartAttempts s; maxRestartAttempts := maxRestartAttempts s |}.

Definition set_isPausedState (v : bool) (s : TranscriptionService) :=
  {| recognition := recognition s; isListening := isListening s; isAborting := isAborting s;
     shouldBeListening := shouldBeListening s; isPausedState := v;
     transcript := transcript s; interimTranscript := interimTranscript s;
     silenceTimer := silenceTimer s; restartTimer := restartTimer s;
     lastResultTime := lastResultTime s; currentLanguage := currentLanguage s;
     onResultCallback := onResultCallback s; onErrorCallback := onErrorCallback s;
     restartAttempts := restartAttempts s; maxRestartAttempts := maxRestartAttempts s |}.

Definition set_transcript (v : string) (s : TranscriptionService) :=
  {| recognition := recognition s; isListening := isListening s; isAborting := isAborting s;
     shouldBeListening := shouldBeListening s; isPausedState := isPausedState s;
     transcript := v; interimTranscript := interimTranscript s;
     silenceTimer := silenceTimer s; restartTimer := restartTimer s;
     lastResultTime := lastResultTime s; currentLanguage := currentLanguage s;
     onResultCallback := onResultCallback s; onErrorCallback := onErrorCallback s;
     restartAttempts := restartAttempts s; maxRestartAttempts := maxRestartAttempts s |}.

Definition set_interimTranscript (v : string) (s : TranscriptionService) :=
  {| recognition := recognition s; isListening := isListening s; isAborting := isAborting s;
     shouldBeListening := shouldBeListening s; isPausedState := isPausedState s;
     transcript := transcript s; interimTranscript := v;
     silenceTimer := silenceTimer s; restartTimer := restartTimer s;
     lastResultTime := lastResultTime s; currentLanguage := currentLanguage s;
     onResultCallback := onResultCallback s; onErrorCallback := onErrorCallback s;
     restartAttempts := restartAttempts s; maxRestartAttempts := maxRestartAttempts s |}.

Definition set_silenceTimer (v : option nat) (s : TranscriptionService) :=
  {| recognition := recognition s; isListening := isListening s; isAborting := isAborting s;
     shouldBeListening := shouldBeListening s; isPausedState := isPausedState s;
     transcript := transcript s; interimTranscript := interimTranscript s;
     silenceTimer := v; restartTimer := restartTimer s;
     lastResultTime := lastResultTime s; currentLanguage := currentLanguage s;
     onResultCallback := onResultCallback s; onErrorCallback := onErrorCallback s;
     restartAttempts := restartAttempts s; maxRestartAttempts := maxRestartAttempts s |}.

Definition set_restartTimer (v : option nat) (s : TranscriptionService) :=
  {| recognition := recognition s; isListening := isListening s; isAborting := isAborting s;
     shouldBeListening := shouldBeListening s; isPausedState := isPausedState s;
     transcript := transcript s; interimTranscript := interimTranscript s;
     silenceTimer := silenceTimer s; restartTimer := v;
     lastResultTime := lastResultTime s; currentLanguage := currentLanguage s;
     onResultCallback := onResultCallback s; onErrorCallback := onErrorCallback s;
     restartAttempts := restartAttempts s; maxRestartAttempts := maxRestartAttempts s |}.

Definition set_lastResultTime (v : nat) (s : TranscriptionService) :=
  {| recognition := recognition s; isListening := isListening s; isAborting := isAborting s;
     shouldBeListening := shouldBeListening s; isPausedState := isPausedState s;
     transcript := transcript s; interimTranscript := interimTranscript s;
     silenceTimer := silenceTimer s; restartTimer := restartTimer s;
     lastResultTime := v; currentLanguage := currentLanguage s;
     onResultCallback := onResultCallback s; onErrorCallback := onErrorCallback s;
     restartAttempts := restartAttempts s; maxRestartAttempts := maxRestartAttempts s |}.

Definition set_currentLanguage (v : string) (s : TranscriptionService) :=
  {| recognition := recognition s; isListening := isListening s; isAborting := isAborting s;
     shouldBeListening := shouldBeListening s; isPausedState := isPausedState s;
     transcript := transcript s; interimTranscript := interimTranscript s;
     silenceTimer := silenceTimer s; restartTimer := restartTimer s;
     lastResultTime := lastResultTime s; currentLanguage := v;
     onResultCallback := onResultCallback s; onErrorCallback := onErrorCallback s;
     restartAttempts := restartAttempts s; maxRestartAttempts := maxRestartAttempts s |}.

Definition set_onResultCallback (v : option callback) (s : TranscriptionService) :=
  {| recognition := recognition s; isListening := isListening s; isAborting := isAborting s;
     shouldBeListening := shouldBeListening s; isPausedState := isPausedState s;
     transcript := transcript s; interimTranscript := interimTranscript s;
     silenceTimer := silenceTimer s; restartTimer := restartTimer s;
     lastResultTime := lastResultTime s; currentLanguage := currentLanguage s;
     onResultCallback := v; onErrorCallback := onErrorCallback s;
     restartAttempts := restartAttempts s; maxRestartAttempts := maxRestartAttempts s |}.

Definition set_onErrorCallback (v : option callback) (s : TranscriptionService) :=
  {| recognition := recognition s; isListening := isListening s; isAborting := isAborting s;
     shouldBeListening := shouldBeListening s; isPausedState := isPausedState s;
     transcript := transcript s; interimTranscript := interimTranscript s;
     silenceTimer := silenceTimer s; restartTimer := restartTimer s;
     lastResultTime := lastResultTime s; currentLanguage := currentLanguage s;
     onResultCallback := onResultCallback s; onErrorCallback := v;
     restartAttempts := restartAttempts s; maxRestartAttempts := maxRestartAttempts s |}.

Definition set_restartAttempts (v : nat) (s : TranscriptionService) :=
  {| recognition := recognition s; isListening := isListening s; isAborting := isAborting s;
     shouldBeListening := shouldBeListening s; isPausedState := isPausedState s;
     transcript := transcript s; interimTranscript := interimTranscript s;
     silenceTimer := silenceTimer s; restartTimer := restartTimer s;
     lastResultTime := lastResultTime s; currentLanguage := currentLanguage s;
     onResultCallback := onResultCallback s; onErrorCallback := onErrorCallback s;
     restartAttempts := v; maxRestartAttempts := maxRestartAttempts s |}.

Definition with_svc (s : TranscriptionService) (w : World) : World :=
  {| svc := s; timers := timers w; next_handle := next_handle w;
     now := now w; trace := trace w |}.

(** *** The monad of method bodies

    A method body maps a world to a completion and the world it leaves
    behind (side effects survive a throw). *)

Definition M (A : Type) : Type := World -> completion A * World.

Definition ret {A : Type} (a : A) : M A := fun w => (Normal a, w).

Definition throw {A : Type} (e : thrown) : M A := fun w => (Abrupt e, w).

Definition bind {A B : Type} (m : M A) (k : A -> M B) : M B :=
  fun w =>
    match m w with
    | (Normal a, w') => k a w'
    | (Abrupt e, w') => (Abrupt e, w')
    end.

Declare Scope js_scope.
Delimit Scope js_scope with js.
Notation "x <- m ;; k" := (bind m (fun x => k))
  (at level 61, m at next level, right associativity) : js_scope.
Notation "m ;; k" := (bind m (fun _ => k))
  (at level 61, right associativity) : js_scope.
Local Open Scope js_scope.

(** [try { body } catch (error) { handler }] *)
Definition try_catch {A : Type} (body : M A) (handler : thrown -> M A) : M A :=
  fun w =>
    match body w with
    | (Normal a, w') => (Normal a, w')
    | (Abrupt e, w') => handler e w'
    end.

(** [try { body } finally { final }] *)
Definition try_finally {A : Type} (body : M A) (final : M unit) : M A :=
  fun w =>
    match body w with
    | (c, w') =>
        match final w' with
        | (Normal _, w'') => (c, w'')
        | (Abrupt e, w'') => (Abrupt e, w'')
        end
    end.

(** [if (c) { m }] *)
Definition when (c : bool) (m : M unit) : M unit :=
  if c then m else ret tt.

(** The host's side of the primitives, as world transformers. *)

Definition update_svc (f : TranscriptionService -> TranscriptionService)
  (w : World) : World :=
  with_svc (f (svc w)) w.

Definition record_action (a : action) (w : World) : World :=
  {| svc := svc w; timers := timers w; next_handle := next_handle w;
     now := now w; trace := trace w ++ [a] |}.

Definition schedule (c : timer_callback) (ms : nat) (w : World) : World :=
  {| svc := svc w;
     timers := timers w ++
       [{| handle := next_handle w; delay := ms;
           due := now w + ms; closure := c |}];
     next_handle := S (next_handle w);
     now := now w; trace := trace w |}.

Definition drop_timer (h : nat) (l : list timer) : list timer :=
  filter (fun t => negb (Nat.eqb (handle t) h)) l.

Definition cancel (h : nat) (w : World) : World :=
  {| svc := svc w; timers := drop_timer h (timers w);
     next_handle := next_handle w; now := now w; trace := trace w |}.

Definition advance (ms : nat) (w : World) : World :=
  {| svc := svc w; timers := timers w; next_handle := next_handle w;
     now := now w + ms; trace := trace w |}.

Definition this : M TranscriptionService := fun w => (Normal (svc w), w).

Definition assign (f : TranscriptionService -> TranscriptionService) : M unit :=
  fun w => (Normal tt, update_svc f w).

Definition emit (a : action) : M unit :=
  fun w => (Normal tt, record_action a w).

(** [Date.now()] *)
Definition Date_now : M nat := fun w => (Normal (now w), w).

(** [setTimeout(closure, ms)]: a fresh handle, the timer joins the queue. *)
Definition setTimeout (c : timer_callback) (ms : nat) : M nat :=
  fun w => (Normal (next_handle w), schedule c ms w).

(** [clearTimeout(h)]: forgets the timer if it is still pending. *)
Definition clearTimeout (h : nat) : M unit :=
  fun w => (Normal tt, cancel h w).

(** The world a method body leaves, and the value it completes with. *)
Definition exec {A : Type} (m : M A) (w : World) : World := snd (m w).
Definition outcome {A : Type} (m : M A) (w : World) : completion A := fst (m w).

(** *** Calls on [this.recognition]

    The engine is opaque: whether a call returns or throws is an input.
    Calling a method of [null] throws a [TypeError]. *)

Definition null_deref (method : string) : thrown :=
  ErrorObject ("Cannot read properties of null (reading '" ++ method ++ "')")%string.

Definition engine_call (method : string) (a : action) (r : reply) : M unit :=
  s <- this ;;
  match recognition s with
  | None => throw (null_deref method)
  | Some _ =>
      emit a ;;
      match r with
      | Returns => ret tt
      | Throws e => throw e
      end
  end.

Definition recognition_start : reply -> M unit := engine_call "start" EngineStart.
Definition recognition_stop : reply -> M unit := engine_call "stop" EngineStop.
Definition recognition_abort : reply -> M unit := engine_call "abort" EngineAbort.

(** [f?.(message)] for the error callback *)
Definition call_error (f : option callback) (message : string) : M unit :=
  match f with
  | Some cb => emit (ErrorCallback cb message)
  | None => ret tt
  end.

(** [f?.(interim, final)] for the result callback *)
Definition call_result (f : option callback) (interim final : string) : M unit :=
  match f with
  | Some cb => emit (ResultCallback cb interim final)
  | None => ret tt
  end.

Definition has_recognition (s : TranscriptionService) : bool :=
  match recognition s with
  | Some _ => true
  | None => false
  end.

(** *** The class

    [constructor]: [supported] says whether the window offers
    [SpeechRecognition] or [webkitSpeechRecognition]; [setupRecognition]
    configures the object when there is one. *)

Definition field_defaults : TranscriptionService :=
  {| recognition := None; isListening := false; isAborting := false;
     shouldBeListening := false; isPausedState := false;
     transcript := ""; interimTranscript := "";
     silenceTimer := None; restartTimer := None;
     lastResultTime := 0; currentLanguage := "en-US";
     onResultCallback := None; onErrorCallback := None;
     restartAttempts := 0; maxRestartAttempts := 3 |}.

Definition setupRecognition (s : TranscriptionService) : TranscriptionService :=
  match recognition s with
  | None => s
  | Some rec =>
      set_recognition
        (Some {| continuous := true; interimResults := true;
                 lang := currentLanguage s; maxAlternatives := 1;
                 onresult_installed := onresult_installed rec |}) s
  end.

Definition constructor (supported : bool) : TranscriptionService :=
  if supported then
    setupRecognition
      (set_recognition
         (Some {| continuous := false; interimResults := false; lang := "";
                  maxAlternatives := 1; onresult_installed := false |})
         field_defaults)
  else field_defaults.

Definition clearSilenceTimer : M unit :=
  s <- this ;;
  match silenceTimer s with
  | Some h => clearTimeout h ;; assign (set_silenceTimer None)
  | None => ret tt
  end.

Definition clearRestartTimer : M unit :=
  s <- this ;;
  match restartTimer s with
  | Some h => clearTimeout h ;; assign (set_restartTimer None)
  | None => ret tt
  end.

(** [recognition.onstart] *)
Definition onstart : M unit :=
  assign (set_isListening true) ;;
  assign (set_isAborting false) ;;
  assign (set_restartAttempts 0) ;;
  clearSilenceTimer ;;
  clearRestartTimer.

(** [recognition.onend] *)
Definition onend : M unit :=
  assign (set_isListening false) ;;
  s <- this ;;
  when (shouldBeListening s && negb (isAborting s) && negb (isPausedState s))
    (h <- setTimeout RestartAfterEnd 100 ;;
     assign (set_restartTimer (Some h))).

(** [recognition.onerror]; [code] is [event.error]. *)
Definition onerror (code : string) : M unit :=
  if String.eqb code "no-speech" then ret tt
  else if String.eqb code "audio-capture" then
    s <- this ;;
    call_error (onErrorCallback s) "Microphone access denied or unavailable" ;;
    assign (set_shouldBeListening false)
  else if String.eqb code "not-allowed" then
    s <- this ;;
    call_error (onErrorCallback s) "Microphone permission denied" ;;
    assign (set_shouldBeListening false)
  else if String.eqb code "network" then ret tt
  else if String.eqb code "aborted" then ret tt
  else ret tt.

(** [attemptRestart]; [r] is how [recognition.start()] ends if it is
    reached. *)
Definition attemptRestart (r : reply) : M unit :=
  s <- this ;;
  if negb (shouldBeListening s) || isAborting s || isListening s then ret tt
  else if Nat.leb (maxRestartAttempts s) (restartAttempts s) then
    assign (set_restartAttempts 0) ;;
    h <- setTimeout CooldownElapsed 2000 ;;
    assign (set_restartTimer (Some h))
  else
    try_catch
      (assign (fun s => set_restartAttempts (S (restartAttempts s)) s) ;;
       recognition_start r)
      (fun error =>
         if is_Error_including "already started" error then
           assign (set_isListening true) ;;
           assign (set_restartAttempts 0)
         else
           h <- setTimeout RetryAfterFailure 500 ;;
           assign (set_restartTimer (Some h))).

(** The bodies of the three timer closures. *)
Definition run_closure (c : timer_callback) (r : reply) : M unit :=
  match c with
  | RestartAfterEnd => attemptRestart r
  | CooldownElapsed =>
      assign (set_restartAttempts 0) ;;
      s <- this ;;
      when (shouldBeListening s) (attemptRestart r)
  | RetryAfterFailure => attemptRestart r
  end.

Definition setLanguage (language : string) : M unit :=
  assign (set_currentLanguage language) ;;
  s <- this ;;
  match recognition s with
  | Some rec =>
      assign (set_recognition
                (Some {| continuous := continuous rec;
                         interimResults := interimResults rec;
                         lang := language;
                         maxAlternatives := maxAlternatives rec;
                         onresult_installed := onresult_installed rec |}))
  | None => ret tt
  end.

(** One entry of [event.results]: [results[i][0].transcript] and
    [results[i].isFinal]. *)
Record SpeechRecognitionResult : Type := {
  first_transcript : string;
  isFinal : bool
}.

Record SpeechRecognitionEvent : Type := {
  resultIndex : nat;
  results : list SpeechRecognitionResult
}.

(** The body of the [for] loop of the result handler, over
    [results[resultIndex .. length-1]]. *)
Fixpoint for_results (rs : list SpeechRecognitionResult) : M unit :=
  match rs with
  | [] => ret tt
  | res :: rest =>
      (if isFinal res then
         assign (fun s => set_transcript
                            (transcript s ++ (first_transcript res ++ " "))%string s)
       else
         assign (fun s => set_interimTranscript
                            (interimTranscript s ++ first_transcript res)%string s)) ;;
      for_results rest
  end.

(** [recognition.onresult], the closure [start] installs. *)
Definition onresult (event : SpeechRecognitionEvent) : M unit :=
  t <- Date_now ;;
  assign (set_lastResultTime t) ;;
  clearSilenceTimer ;;
  assign (set_interimTranscript "") ;;
  for_results (skipn (resultIndex event) (results event)) ;;
  s <- this ;;
  call_result (onResultCallback s) (interimTranscript s) (transcript s).

Definition install_onresult (s : TranscriptionService) : TranscriptionService :=
  match recognition s with
  | Some rec =>
      set_recognition
        (Some {| continuous := continuous rec;
                 interimResults := interimResults rec;
                 lang := lang rec;
                 maxAlternatives := maxAlternatives rec;
                 onresult_installed := true |}) s
  | None => s
  end.

(** [start(onResult, onError)]; [r] is how [recognition.start()] ends. *)
Definition start (onResult : callback) (onError : option callback) (r : reply)
  : M unit :=
  s <- this ;;
  if negb (has_recognition s) then
    call_error onError "Speech Recognition API not supported"
  else if shouldBeListening s then ret tt
  else
    assign (set_transcript "") ;;
    assign (set_interimTranscript "") ;;
    assign (set_isAborting false) ;;
    assign (set_shouldBeListening true) ;;
    t <- Date_now ;;
    assign (set_lastResultTime t) ;;
    assign (set_onResultCallback (Some onResult)) ;;
    assign (set_onErrorCallback onError) ;;
    assign (set_restartAttempts 0) ;;
    assign install_onresult ;;
    try_catch (recognition_start r)
      (fun error =>
         match error with
         | ErrorObject message =>
             if negb (includes "already started" message) then
               call_error onError (or_else message "Failed to start transcription") ;;
               assign (set_shouldBeListening false)
             else ret tt
         | OtherValue => ret tt
         end).

(** [stop()]; [r] is how [recognition.stop()] ends if it is reached. *)
Definition stop (r : reply) : M string :=
  assign (set_shouldBeListening false) ;;
  clearSilenceTimer ;;
  clearRestartTimer ;;
  s <- this ;;
  when (has_recognition s && isListening s)
    (try_catch (recognition_stop r) (fun _ => ret tt)) ;;
  assign (set_onResultCallback None) ;;
  assign (set_onErrorCallback None) ;;
  s <- this ;;
  ret (transcript s).

(** [abort()]; [r] is how [recognition.abort()] ends if it is reached. *)
Definition abort (r : reply) : M unit :=
  assign (set_shouldBeListening false) ;;
  clearSilenceTimer ;;
  clearRestartTimer ;;
  s <- this ;;
  when (has_recognition s && (isListening s || isAborting s))
    (assign (set_isAborting true) ;;
     try_finally
       (try_catch
          (recognition_abort r ;; assign (set_isListening false))
          (fun _ => ret tt))
       (assign (set_isAborting false))) ;;
  assign (set_onResultCallback None) ;;
  assign (set_onErrorCallback None).

(** [pause()]; [r] is how [recognition.stop()] ends if it is reached. *)
Definition pause (r : reply) : M unit :=
  assign (set_isPausedState true) ;;
  clearSilenceTimer ;;
  s <- this ;;
  when (has_recognition s && isListening s)
    (try_catch (recognition_stop r) (fun _ => ret tt)).

(** [resume()]; [r] is how [recognition.start()] ends if it is reached. *)
Definition resume (r : reply) : M unit :=
  assign (set_isPausedState false) ;;
  s <- this ;;
  when (shouldBeListening s && negb (isListening s) && has_recognition s)
    (try_catch (recognition_start r) (fun _ => ret tt)).

Definition isSupported (s : TranscriptionService) : bool := has_recognition s.

Definition getLanguage (s : TranscriptionService) : string := currentLanguage s.

(** *** The event loop

    What can happen to a service: the caller invokes a method, the engine
    dispatches one of its events to the installed handler, time passes, or
    a pending timer whose delay has elapsed fires.  Engine events reach a
    handler only if there is a recognition object, and results only once
    [start] has installed the result handler. *)

Inductive event : Type :=
| CallStart (onResult : callback) (onError : option callback) (r : reply)
| CallStop (r : reply)
| CallAbort (r : reply)
| CallPause (r : reply)
| CallResume (r : reply)
| CallSetLanguage (language : string)
| EngineStarted
| EngineEnded
| EngineError (code : string)
| EngineResult (ev : SpeechRecognitionEvent)
| Elapse (ms : nat)
| TimerFires (h : nat) (r : reply).

Definition elapse (ms : nat) : M unit :=
  fun w => (Normal tt, advance ms w).

Definition fire (h : nat) (r : reply) : M unit :=
  fun w =>
    match find (fun t => Nat.eqb (handle t) h) (timers w) with
    | Some t =>
        if Nat.leb (due t) (now w) then
          (clearTimeout h ;; run_closure (closure t) r) w
        else (Normal tt, w)
    | None => (Normal tt, w)
    end.

Definition result_handler_installed (s : TranscriptionService) : bool :=
  match recognition s with
  | Some rec => onresult_installed rec
  | None => false
  end.

Definition dispatch (e : event) : M unit :=
  match e with
  | CallStart onResult onError r => start onResult onError r
  | CallStop r => stop r ;; ret tt
  | CallAbort r => abort r
  | CallPause r => pause r
  | CallResume r => resume r
  | CallSetLanguage language => setLanguage language
  | EngineStarted => s <- this ;; when (has_recognition s) onstart
  | EngineEnded => s <- this ;; when (has_recognition s) onend
  | EngineError code => s <- this ;; when (has_recognition s) (onerror code)
  | EngineResult ev => s <- this ;; when (result_handler_installed s) (onresult ev)
  | Elapse ms => elapse ms
  | TimerFires h r => fire h r
  end.

Definition step (e : event) (w : World) : World := exec (dispatch e) w.

Definition run (es : list event) (w : World) : World :=
  fold_left (fun w e => step e w) es w.

(** A page that has just constructed the service. *)
Definition boot (supported : bool) : World :=
  {| svc := constructor supported; timers := []; next_handle := 1;
     now := 0; trace := [] |}.

(** Worlds the event loop can reach from a fresh page. *)
Inductive reachable : World -> Prop :=
| reachable_boot : forall supported, reachable (boot supported)
| reachable_step : forall e w, reachable w -> reachable (step e w).

(** *** Observations on worlds and traces *)

Definition is_EngineStart (a : action) : bool :=
  match a with
  | EngineStart => true
  | _ => false
  end.

(** How often [recognition.start()] has been called. *)
Definition engine_starts (tr : list action) : nat :=
  length (filter is_EngineStart tr).

(** The [finalText] arguments the result callback has received, in order. *)
Definition finalTexts (tr : list action) : list string :=
  flat_map (fun a => match a with
                     | ResultCallback _ _ final => [final]
                     | _ => []
                     end) tr.

(** The messages the error callback has received, in order. *)
Definition error_messages (tr : list action) : list string :=
  flat_map (fun a => match a with
                     | ErrorCallback _ message => [message]
                     | _ => []
                     end) tr.

Definition is_prefix (s1 s2 : string) : Prop :=
  exists rest, s2 = (s1 ++ rest)%string.

Definition no_longer (s1 s2 : string) : Prop :=
  String.length s1 <= String.length s2.

(** The part of an update the loop visits. *)
Definition fresh_results (ev : SpeechRecognitionEvent) : list SpeechRecognitionResult :=
  skipn (resultIndex ev) (results ev).

Definition join (l : list string) : string :=
  fold_right String.append "" l.

(** The fragments an update finalizes, and those it leaves pending. *)
Definition finalized_fragments (ev : SpeechRecognitionEvent) : list string :=
  map first_transcript (filter isFinal (fresh_results ev)).

Definition pending_fragments (ev : SpeechRecognitionEvent) : list string :=
  map first_transcript (filter (fun res => negb (isFinal res)) (fresh_results ev)).

(** An update that finalizes the single fragment [text]. *)
Definition finalized_update (text : string) : event :=
  EngineResult {| resultIndex := 0;
                  results := [{| first_transcript := text; isFinal := true |}] |}.

(** A [start] call that opens a new session (and so empties the text). *)
Definition opens_session (e : event) (w : World) : bool :=
  match e with
  | CallStart _ _ _ => has_recognition (svc w) && negb (shouldBeListening (svc w))
  | _ => false
  end.

(** [es], run from [w], stays within the session [w] is in. *)
Fixpoint within_session (es : list event) (w : World) : Prop :=
  match es with
  | [] => True
  | e :: rest => opens_session e w = false /\ within_session rest (step e w)
  end.

Definition is_CallStart (e : event) : bool :=
  match e with
  | CallStart _ _ _ => true
  | _ => false
  end.

(** The engine listens only while the caller wants it to and has not
    paused. *)
Definition listening_invariant (s : TranscriptionService) : Prop :=
  isListening s = true -> shouldBeListening s = true /\ isPausedState s = false.

Definition fatal_code (code : string) : bool :=
  String.eqb code "audio-capture" || String.eqb code "not-allowed".

Definition transient_code (code : string) : bool :=
  String.eqb code "no-speech" || String.eqb code "network".

(** The events after which [isListening] stays in step with the intent
    flags whenever it was before. *)
Definition keeps_listening_invariant (e : event) : bool :=
  match e with
  | CallStart _ _ _ => true
  | CallStop _ => false
  | CallAbort r => match r with Returns => true | Throws _ => false end
  | CallPause _ => false
  | CallResume _ => true
  | CallSetLanguage _ => true
  | EngineStarted => false
  | EngineEnded => true
  | EngineError code => negb (fatal_code code)
  | EngineResult _ => true
  | Elapse _ => true
  | TimerFires _ r =>
      match r with
      | Returns => true
      | Throws e => negb (is_Error_including "already started" e)
      end
  end.


(** The message a fatal engine error is reported with. *)
Definition fatal_message (code : string) : string :=
  if String.eqb code "audio-capture"
  then "Microphone access denied or unavailable"
  else "Microphone permission denied".

(** The guard of [attemptRestart] lets a restart through. *)
Definition restartable (s : TranscriptionService) : Prop :=
  has_recognition s = true /\ shouldBeListening s = true /\
  isAborting s = false /\ isListening s = false.


(** Events that leave [isListening] as it is, by design, until the engine
    reports its end. *)
Definition awaits_engine_end (e : event) : bool :=
  match e with
  | CallStop _ | CallPause _ | EngineError _ => true
  | _ => false
  end.

(** *** Scenarios *)

(** The scenario of the specification, with the fragments exactly as it
    writes them. *)
Definition scenario_A_as_written : list event :=
  [CallStart 0 None Returns; EngineStarted;
   finalized_update "Hello "; finalized_update "world "; finalized_update "today "].

(** The same scenario with the fragments as the engine delivers words. *)
Definition scenario_A (cb : callback) (onError : option callback) (r : reply)
  : list event :=
  [CallStart cb onError r;
   finalized_update "Hello"; finalized_update "world"; finalized_update "today"].

(** A session with an engine restart between two finalized updates. *)
Definition session_with_restart : list event :=
  [EngineStarted; finalized_update "a"; EngineEnded; Elapse 100;
   TimerFires 1 Returns; EngineStarted; finalized_update "b"].

(** The service right after the engine has started, and the same with a
    restart left over from an earlier engine-ended event. *)
Definition listening_world : World :=
  run [CallStart 0 None Returns; EngineStarted] (boot true).

Definition listening_with_stale_restart : World :=
  run [CallStart 0 None Returns; EngineStarted; EngineEnded; CallPause Returns;
       CallResume Returns; EngineStarted; Elapse 100] (boot true).

(** The engine ends unexpectedly, and the caller pauses before the restart
    scheduled by the engine-ended handler fires. *)
Definition pause_during_pending_restart : list event :=
  [CallStart 0 None Returns; EngineStarted; EngineEnded; CallPause Returns;
   Elapse 100; TimerFires 1 Returns].

(** The same with [stop()] in place of [pause()]. *)
Definition stop_during_pending_restart : list event :=
  [CallStart 0 None Returns; EngineStarted; EngineEnded; CallStop Returns;
   Elapse 100; TimerFires 1 Returns].

(** A session that has committed text and was stopped. *)
Definition stopped_session : World :=
  run [CallStart 0 None Returns; EngineStarted; finalized_update "notes";
       CallStop Returns; EngineEnded] (boot true).

(** The service once the engine has ended unexpectedly. *)
Definition engine_lost : World :=
  run [CallStart 0 None Returns; EngineStarted; EngineEnded] (boot true).

(** *** Further observations *)

Definition is_callback (a : action) : bool :=
  match a with
  | ResultCallback _ _ _ => true
  | ErrorCallback _ _ => true
  | _ => false
  end.

(** How often one of the caller's callbacks has been invoked. *)
Definition callbacks_invoked (tr : list action) : nat :=
  length (filter is_callback tr).

(** The timer with handle [h] is still in the host's queue. *)
Definition pending (h : nat) (w : World) : bool :=
  existsb (fun t => Nat.eqb (handle t) h) (timers w).

(** [this.recognition.lang], when there is a recognition object. *)
Definition engine_lang (s : TranscriptionService) : option string :=
  option_map lang (recognition s).

(** [start()] gives the session up: [recognition.start()] threw an [Error]
    whose message does not mention "already started". *)
Definition start_gives_up (r : reply) : bool :=
  match r with
  | Returns => false
  | Throws e => is_Error_not_including "already started" e
  end.

(** What [start()] passes to [onError] when it gives up. *)
Definition start_failure_message (r : reply) : string :=
  match r with
  | Throws (ErrorObject message) => or_else message "Failed to start transcription"
  | _ => ""
  end.

(** [stop()] or [abort()]. *)
Definition ends_session (e : event) : bool :=
  match e with
  | CallStop _ => true
  | CallAbort _ => true
  | _ => false
  end.

(** A service that was restarted by hand while it believed the engine was
    down. *)
Definition restart_already_started : reply :=
  Throws (ErrorObject "Failed to execute 'start' on 'SpeechRecognition': recognition has already started.").

End Transcription.

(** ** The audio capture controller *)

Module Recorder.
Import Js.

(** A [Blob] is its bytes; [new Blob(parts)] concatenates the parts. *)
Definition Blob : Type := list nat.

Definition size (b : Blob) : nat := length b.

Definition new_Blob (parts : list Blob) : Blob := concat parts.

Inductive track_state : Type := Live | Ended.

(** A [MediaStream] as the list of its tracks. *)
Definition MediaStream : Type := list track_state.

Inductive context_state : Type := Running | Closed.

(** The [AudioProcessor] class: the fields [stop] and the level reading
    look at. *)
Record AudioProcessor : Type := {
  audioContext : option context_state;
  analyser : bool;
  isProcessing : bool
}.

(** [AudioProcessor.stop()] *)
Definition processor_stop (p : AudioProcessor) : AudioProcessor :=
  {| audioContext := None; analyser := analyser p; isProcessing := false |}.

(** The context [AudioProcessor.stop()] closes, if any. *)
Definition processor_closes (p : AudioProcessor) : bool :=
  match audioContext p with
  | Some Running => true
  | _ => false
  end.

(** [AudioProcessor.initialize(stream)] on a fresh instance *)
Definition initialized_processor : AudioProcessor :=
  {| audioContext := Some Running; analyser := true; isProcessing := true |}.

Inductive recorder_state : Type := Inactive | Recording | Paused.

(** The two closures the hook installs as [ondataavailable]:
    [startRecording] forwards a chunk to [options.onDataAvailable];
    [stopRecording] pushes it on the [chunks] array of its promise. *)
Inductive data_handler : Type :=
| ForwardToOptions
| PushOnChunks (promise_id : nat).

Record MediaRecorder : Type := {
  state : recorder_state;
  ondataavailable : data_handler;
  onstop : option nat
}.

Inductive settlement : Type :=
| Resolved (b : Blob)
| Rejected (message : string).

(** A promise returned by [stopRecording], with the [chunks] array its
    executor allocated. *)
Record promise : Type := {
  chunks : list Blob;
  settled : option settlement
}.

Inductive interval_kind : Type := DurationTimer | LevelMonitor.

(** The hook's state and refs, its options, and the host objects it
    touches.  The callbacks read the React state of the latest render. *)
Record Hook : Type := {
  isRecording : bool;
  isPaused : bool;
  duration : nat;
  audioLevel : nat;
  mediaRecorderRef : option MediaRecorder;
  streamRef : option MediaStream;
  processorRef : option AudioProcessor;
  timerRef : option nat;
  levelMonitorRef : option nat;
  has_onDataAvailable : bool;
  has_onError : bool;
  intervals : list (nat * interval_kind);
  next_interval : nat;
  promises : list promise;
  delivered : list Blob;
  reported : list string;
  contexts_closed : nat
}.

Definition mount (onDataAvailable onError : bool) : Hook :=
  {| isRecording := false; isPaused := false; duration := 0; audioLevel := 0;
     mediaRecorderRef := None; streamRef := None; processorRef := None;
     timerRef := None; levelMonitorRef := None;
     has_onDataAvailable := onDataAvailable; has_onError := onError;
     intervals := []; next_interval := 1; promises := [];
     delivered := []; reported := []; contexts_closed := 0 |}.

(** [if (ref.current) clearInterval(ref.current)] *)
Definition clearInterval (ref : option nat) (l : list (nat * interval_kind))
  : list (nat * interval_kind) :=
  match ref with
  | Some h => filter (fun i => negb (Nat.eqb (fst i) h)) l
  | None => l
  end.

(** [options.onError(error)] when the option is given *)
Definition report (message : string) (k : Hook) : list string :=
  if has_onError k then reported k ++ [message] else reported k.

(** [startRecording()]; [granted] is the stream [getUserMedia] resolves
    with, or the message of the error it rejects with; [graph] is how
    [processor.initialize] ends. *)
Definition startRecording (granted : MediaStream + string) (graph : reply)
  (k : Hook) : Hook :=
  match granted with
  | inr message =>
      {| isRecording := isRecording k; isPaused := isPaused k;
         duration := duration k; audioLevel := audioLevel k;
         mediaRecorderRef := mediaRecorderRef k; streamRef := streamRef k;
         processorRef := processorRef k;
         timerRef := timerRef k; levelMonitorRef := levelMonitorRef k;
         has_onDataAvailable := has_onDataAvailable k; has_onError := has_onError k;
         intervals := intervals k; next_interval := next_interval k;
         promises := promises k; delivered := delivered k;
         reported := report message k; contexts_closed := contexts_closed k |}
  | inl stream =>
      match graph with
      | Throws e =>
          {| isRecording := isRecording k; isPaused := isPaused k;
             duration := duration k; audioLevel := audioLevel k;
             mediaRecorderRef := mediaRecorderRef k; streamRef := streamRef k;
             processorRef := processorRef k;
             timerRef := timerRef k; levelMonitorRef := levelMonitorRef k;
             has_onDataAvailable := has_onDataAvailable k; has_onError := has_onError k;
             intervals := intervals k; next_interval := next_interval k;
             promises := promises k; delivered := delivered k;
             reported :=
               report (match e with
                       | ErrorObject message => message
                       | OtherValue => "Failed to start recording"
                       end) k;
             contexts_closed := contexts_closed k |}
      | Returns =>
          {| isRecording := true; isPaused := isPaused k;
             duration := 0; audioLevel := audioLevel k;
             mediaRecorderRef :=
               Some {| state := Recording; ondataavailable := ForwardToOptions;
                       onstop := None |};
             streamRef := Some stream;
             processorRef := Some initialized_processor;
             timerRef := Some (next_interval k);
             levelMonitorRef := Some (S (next_interval k));
             has_onDataAvailable := has_onDataAvailable k; has_onError := has_onError k;
             intervals := intervals k ++
                          [(next_interval k, DurationTimer);
                           (S (next_interval k), LevelMonitor)];
             next_interval := S (S (next_interval k));
             promises := promises k; delivered := delivered k;
             reported := reported k; contexts_closed := contexts_closed k |}
      end
  end.

Definition with_recorder_state (st : recorder_state) (m : MediaRecorder) : MediaRecorder :=
  {| state := st; ondataavailable := ondataavailable m; onstop := onstop m |}.

(** [pauseRecording()] *)
Definition pauseRecording (k : Hook) : Hook :=
  match mediaRecorderRef k with
  | Some m =>
      if isRecording k then
        {| isRecording := isRecording k; isPaused := true;
           duration := duration k; audioLevel := audioLevel k;
           mediaRecorderRef := Some (with_recorder_state Paused m);
           streamRef := streamRef k; processorRef := processorRef k;
           timerRef := timerRef k; levelMonitorRef := levelMonitorRef k;
           has_onDataAvailable := has_onDataAvailable k; has_onError := has_onError k;
           intervals := clearInterval (levelMonitorRef k)
                          (clearInterval (timerRef k) (intervals k));
           next_interval := next_interval k;
           promises := promises k; delivered := delivered k;
           reported := reported k; contexts_closed := contexts_closed k |}
      else k
  | None => k
  end.

(** [resumeRecording()] *)
Definition resumeRecording (k : Hook) : Hook :=
  match mediaRecorderRef k with
  | Some m =>
      if isPaused k then
        {| isRecording := isRecording k; isPaused := false;
           duration := duration k; audioLevel := audioLevel k;
           mediaRecorderRef := Some (with_recorder_state Recording m);
           streamRef := streamRef k; processorRef := processorRef k;
           timerRef := Some (next_interval k);
           levelMonitorRef := Some (S (next_interval k));
           has_onDataAvailable := has_onDataAvailable k; has_onError := has_onError k;
           intervals := intervals k ++
                        [(next_interval k, DurationTimer);
                         (S (next_interval k), LevelMonitor)];
           next_interval := S (S (next_interval k));
           promises := promises k; delivered := delivered k;
           reported := reported k; contexts_closed := contexts_closed k |}
      else k
  | None => k
  end.

(** [stopRecording()]: the promise it returns is the last of [promises]. *)
Definition stopRecording (k : Hook) : Hook :=
  match mediaRecorderRef k with
  | Some m =>
      if isRecording k then
        match state m with
        | Inactive =>
        (* [stop()] on an inactive recorder throws inside the executor:
           the handlers are already replaced, the promise rejects and the
           cleanup is skipped *)
        {| isRecording := isRecording k; isPaused := isPaused k;
           duration := duration k; audioLevel := audioLevel k;
           mediaRecorderRef :=
             Some {| state := Inactive;
                     ondataavailable := PushOnChunks (length (promises k));
                     onstop := Some (length (promises k)) |};
           streamRef := streamRef k; processorRef := processorRef k;
           timerRef := timerRef k; levelMonitorRef := levelMonitorRef k;
           has_onDataAvailable := has_onDataAvailable k; has_onError := has_onError k;
           intervals := intervals k; next_interval := next_interval k;
           promises := promises k ++
                       [{| chunks := [];
                           settled := Some (Rejected "InvalidStateError") |}];
           delivered := delivered k;
           reported := reported k; contexts_closed := contexts_closed k |}
        | _ =>
        {| isRecording := false; isPaused := false;
           duration := 0; audioLevel := 0;
           mediaRecorderRef :=
             Some {| state := Inactive;
                     ondataavailable := PushOnChunks (length (promises k));
                     onstop := Some (length (promises k)) |};
           streamRef := option_map (map (fun _ => Ended)) (streamRef k);
           processorRef := option_map processor_stop (processorRef k);
           timerRef := timerRef k; levelMonitorRef := levelMonitorRef k;
           has_onDataAvailable := has_onDataAvailable k; has_onError := has_onError k;
           intervals := clearInterval (levelMonitorRef k)
                          (clearInterval (timerRef k) (intervals k));
           next_interval := next_interval k;
           promises := promises k ++ [{| chunks := []; settled := None |}];
           delivered := delivered k;
           reported := reported k;
           contexts_closed :=
             match processorRef k with
             | Some p => if processor_closes p then S (contexts_closed k)
                         else contexts_closed k
             | None => contexts_closed k
             end |}
        end
      else
        {| isRecording := isRecording k; isPaused := isPaused k;
           duration := duration k; audioLevel := audioLevel k;
           mediaRecorderRef := mediaRecorderRef k; streamRef := streamRef k;
           processorRef := processorRef k;
           timerRef := timerRef k; levelMonitorRef := levelMonitorRef k;
           has_onDataAvailable := has_onDataAvailable k; has_onError := has_onError k;
           intervals := intervals k; next_interval := next_interval k;
           promises := promises k ++
                       [{| chunks := [];
                           settled := Some (Rejected "No active recording") |}];
           delivered := delivered k;
           reported := reported k; contexts_closed := contexts_closed k |}
  | None =>
      {| isRecording := isRecording k; isPaused := isPaused k;
         duration := duration k; audioLevel := audioLevel k;
         mediaRecorderRef := mediaRecorderRef k; streamRef := streamRef k;
         processorRef := processorRef k;
         timerRef := timerRef k; levelMonitorRef := levelMonitorRef k;
         has_onDataAvailable := has_onDataAvailable k; has_onError := has_onError k;
         intervals := intervals k; next_interval := next_interval k;
         promises := promises k ++
                     [{| chunks := [];
                         settled := Some (Rejected "No active recording") |}];
         delivered := delivered k;
         reported := reported k; contexts_closed := contexts_closed k |}
  end.

Definition with_promises (ps : list promise) (k : Hook) : Hook :=
  {| isRecording := isRecording k; isPaused := isPaused k;
     duration := duration k; audioLevel := audioLevel k;
     mediaRecorderRef := mediaRecorderRef k; streamRef := streamRef k;
     processorRef := processorRef k;
     timerRef := timerRef k; levelMonitorRef := levelMonitorRef k;
     has_onDataAvailable := has_onDataAvailable k; has_onError := has_onError k;
     intervals := intervals k; next_interval := next_interval k;
     promises := ps; delivered := delivered k;
     reported := reported k; contexts_closed := contexts_closed k |}.

Definition with_delivered (d : list Blob) (k : Hook) : Hook :=
  {| isRecording := isRecording k; isPaused := isPaused k;
     duration := duration k; audioLevel := audioLevel k;
     mediaRecorderRef := mediaRecorderRef k; streamRef := streamRef k;
     processorRef := processorRef k;
     timerRef := timerRef k; levelMonitorRef := levelMonitorRef k;
     has_onDataAvailable := has_onDataAvailable k; has_onError := has_onError k;
     intervals := intervals k; next_interval := next_interval k;
     promises := promises k; delivered := d;
     reported := reported k; contexts_closed := contexts_closed k |}.

(** [update i f l] applies [f] to the [i]-th element of [l], if any. *)
Fixpoint update {A : Type} (i : nat) (f : A -> A) (l : list A) : list A :=
  match l, i with
  | [], _ => []
  | x :: rest, 0 => f x :: rest
  | x :: rest, S j => x :: update j f rest
  end.

(** [chunks.push(data)] *)
Definition push (data : Blob) (p : promise) : promise :=
  {| chunks := chunks p ++ [data]; settled := settled p |}.

(** [resolve(blob)]: settles a pending promise, does nothing to a settled
    one. *)
Definition resolve (b : Blob) (p : promise) : promise :=
  match settled p with
  | None => {| chunks := chunks p; settled := Some (Resolved b) |}
  | Some _ => p
  end.

(** The recorder dispatches [dataavailable] with [event.data = data]. *)
Definition dataavailable (data : Blob) (k : Hook) : Hook :=
  match mediaRecorderRef k with
  | Some m =>
      match ondataavailable m with
      | ForwardToOptions =>
          if Nat.ltb 0 (size data) && has_onDataAvailable k
          then with_delivered (delivered k ++ [data]) k
          else k
      | PushOnChunks p =>
          if Nat.ltb 0 (size data)
          then with_promises (update p (push data) (promises k)) k
          else k
      end
  | None => k
  end.

(** The recorder dispatches [stop]. *)
Definition stopped (k : Hook) : Hook :=
  match mediaRecorderRef k with
  | Some m =>
      match onstop m with
      | Some p =>
          with_promises
            (update p (fun pr => resolve (new_Blob (chunks pr)) pr) (promises k)) k
      | None => k
      end
  | None => k
  end.

(** What the promise of the latest [stopRecording()] has settled with. *)
Definition last_settlement (k : Hook) : option settlement :=
  match rev (promises k) with
  | p :: _ => settled p
  | [] => None
  end.

(** One recording session as the host drives it: the recorder emits the
    chunks [before], the caller asks to stop, the recorder flushes the
    chunks [after] and reports that it has stopped. *)
Definition session (stream : MediaStream) (before after : list Blob) (k : Hook)
  : Hook :=
  stopped
    (fold_left (fun k d => dataavailable d k) after
       (stopRecording
          (fold_left (fun k d => dataavailable d k) before
             (startRecording (inl stream) Returns k)))).

(** The recorder as [startRecording] leaves it, and as [stopRecording]
    leaves it when its promise is the [p]-th. *)
Definition forwarding : MediaRecorder :=
  {| state := Recording; ondataavailable := ForwardToOptions; onstop := None |}.

Definition collecting (p : nat) : MediaRecorder :=
  {| state := Inactive; ondataavailable := PushOnChunks p; onstop := Some p |}.

Definition nonempty (b : Blob) : bool := Nat.ltb 0 (size b).

(** *** The rest of the hook *)

(** The cleanup the mount effect returns: both intervals are cleared, every
    track of the stream is stopped, the processor is stopped and its ref
    set to null. *)
Definition unmount (k : Hook) : Hook :=
  {| isRecording := isRecording k; isPaused := isPaused k;
     duration := duration k; audioLevel := audioLevel k;
     mediaRecorderRef := mediaRecorderRef k;
     streamRef := option_map (map (fun _ => Ended)) (streamRef k);
     processorRef := None;
     timerRef := timerRef k; levelMonitorRef := levelMonitorRef k;
     has_onDataAvailable := has_onDataAvailable k; has_onError := has_onError k;
     intervals := clearInterval (levelMonitorRef k)
                    (clearInterval (timerRef k) (intervals k));
     next_interval := next_interval k;
     promises := promises k; delivered := delivered k;
     reported := reported k;
     contexts_closed :=
       match processorRef k with
       | Some p => if processor_closes p then S (contexts_closed k)
                   else contexts_closed k
       | None => contexts_closed k
       end |}.

(** The interval with handle [h] is running and is a duration timer. *)
Definition duration_timer_runs (h : nat) (k : Hook) : bool :=
  existsb (fun i => Nat.eqb (fst i) h &&
                    match snd i with DurationTimer => true | LevelMonitor => false end)
          (intervals k).

(** The host fires the interval [h]: [setDuration((prev) => prev + 1)] if
    it is a running duration timer. *)
Definition tick (h : nat) (k : Hook) : Hook :=
  if duration_timer_runs h k then
    {| isRecording := isRecording k; isPaused := isPaused k;
       duration := S (duration k); audioLevel := audioLevel k;
       mediaRecorderRef := mediaRecorderRef k; streamRef := streamRef k;
       processorRef := processorRef k;
       timerRef := timerRef k; levelMonitorRef := levelMonitorRef k;
       has_onDataAvailable := has_onDataAvailable k; has_onError := has_onError k;
       intervals := intervals k; next_interval := next_interval k;
       promises := promises k; delivered := delivered k;
       reported := reported k; contexts_closed := contexts_closed k |}
  else k.

(** What can happen to a mounted hook.  Sampling of the level is left out:
    it only writes [audioLevel]. *)
Inductive event : Type :=
| CallStartRecording (granted : MediaStream + string) (graph : reply)
| CallPauseRecording
| CallResumeRecording
| CallStopRecording
| RecorderData (data : Blob)
| RecorderStopped
| IntervalFires (h : nat)
| Unmount.

Definition step (e : event) (k : Hook) : Hook :=
  match e with
  | CallStartRecording granted graph => startRecording granted graph k
  | CallPauseRecording => pauseRecording k
  | CallResumeRecording => resumeRecording k
  | CallStopRecording => stopRecording k
  | RecorderData data => dataavailable data k
  | RecorderStopped => stopped k
  | IntervalFires h => tick h k
  | Unmount => unmount k
  end.

Definition run (es : list event) (k : Hook) : Hook :=
  fold_left (fun k e => step e k) es k.



(** The interval [h] is running. *)
Definition runs (h : nat) (k : Hook) : bool :=
  existsb (fun i => Nat.eqb (fst i) h) (intervals k).

Definition all_ended (s : option MediaStream) : Prop :=
  match s with
  | Some tracks => Forall (fun t => t = Ended) tracks
  | None => True
  end.

Definition disposed (p : option AudioProcessor) : Prop :=
  match p with
  | Some a => audioContext a = None /\ isProcessing a = false
  | None => True
  end.

(** A hook that records a two-track stream, and the same with the
    recording paused after three seconds. *)
Definition recording_hook : Hook :=
  startRecording (inl [Live; Live]) Returns (mount false true).

Definition paused_hook : Hook :=
  run [IntervalFires 1; IntervalFires 1; IntervalFires 1; CallPauseRecording]
      recording_hook.

(** *** Sampling the level

    [AudioProcessor.getFrequencyData] and [getAverageFrequency].  What the
    analyser writes into the [Uint8Array] is an input ([snapshot], one byte
    per frequency bin).  The average is kept as the exact quotient; the
    number the code returns is the double nearest to it. *)

Definition getFrequencyData (p : AudioProcessor) (snapshot : list Byte.byte)
  : list Byte.byte :=
  if analyser p then snapshot else [].

(** [dataArray.reduce((a, b) => a + b)], which throws on an empty array. *)
Definition reduce_sum (data : list Byte.byte) : completion nat :=
  match data with
  | [] => Abrupt (ErrorObject "Reduce of empty array with no initial value")
  | b :: rest => Normal (fold_left (fun a x => a + Byte.to_nat x) rest (Byte.to_nat b))
  end.

Definition getAverageFrequency (p : AudioProcessor) (snapshot : list Byte.byte)
  : completion QArith_base.Q :=
  if negb (analyser p) then Normal (QArith_base.Qmake 0 1)
  else
    match reduce_sum (getFrequencyData p snapshot) with
    | Normal total =>
        Normal (QArith_base.Qmake (Z.of_nat total)
                  (Pos.of_nat (length (getFrequencyData p snapshot))))
    | Abrupt e => Abrupt e
    end.

End Recorder.

(** ** What the recording screens show *)

Module Display.

(** [n.toString()] for a non-negative integer. *)
Definition toString (n : nat) : string :=
  NilEmpty.string_of_uint (Nat.to_uint n).

(** [s.padStart(2, "0")] *)
Definition padStart2 (s : string) : string :=
  match String.length s with
  | 0 => "00"
  | 1 => ("0" ++ s)%string
  | _ => s
  end.

(** [formatDuration(seconds)], as both recording screens define it;
    [seconds] is the hook's [duration], a count of ticks. *)
Definition formatDuration (seconds : nat) : string :=
  let hrs := seconds / 3600 in
  let mins := (seconds mod 3600) / 60 in
  let secs := seconds mod 60 in
  (padStart2 (toString hrs) ++ ":" ++ padStart2 (toString mins) ++ ":" ++
   padStart2 (toString secs))%string.

End Display.

(** * Properties of the transcription service *)

Module TranscriptionFacts.
Import Js Transcription.
Local Open Scope js_scope.

(** ** Proof steps shared by the lemmas below *)

(** Two reductions over the definitions of the model: [js_head] runs a
    method until its next test on the world, [js_full] computes a world
    field by field. *)
Declare Reduction js_head :=
  lazy head beta iota zeta delta
    [exec outcome step dispatch start stop abort pause resume setLanguage
     onstart onend onerror attemptRestart run_closure clearSilenceTimer
     clearRestartTimer recognition_start recognition_stop recognition_abort
     engine_call call_error call_result
     elapse Date_now setTimeout clearTimeout emit assign this when
     try_catch try_finally bind ret throw fire onresult fst snd
     negb andb orb].

Declare Reduction js_full :=
  cbv beta iota zeta delta
    [exec outcome step dispatch start stop abort pause resume setLanguage
     onstart onend onerror attemptRestart run_closure clearSilenceTimer
     clearRestartTimer recognition_start recognition_stop recognition_abort
     engine_call call_error call_result has_recognition result_handler_installed
     elapse Date_now setTimeout clearTimeout emit assign this when
     try_catch try_finally bind ret throw with_svc install_onresult
     update_svc record_action schedule cancel advance
     set_recognition set_isListening set_isAborting set_shouldBeListening
     set_isPausedState set_transcript set_interimTranscript set_silenceTimer
     set_restartTimer set_lastResultTime set_currentLanguage
     set_onResultCallback set_onErrorCallback set_restartAttempts
     null_deref fire onresult fst snd
     svc timers next_handle now trace recognition isListening isAborting
     shouldBeListening isPausedState transcript interimTranscript
     silenceTimer restartTimer lastResultTime currentLanguage
     onResultCallback onErrorCallback restartAttempts maxRestartAttempts
     continuous interimResults lang maxAlternatives onresult_installed
     is_Error_including is_Error_not_including
     negb andb orb].

Ltac run_js :=
  cbv beta iota zeta delta
    [exec outcome step dispatch start stop abort pause resume setLanguage
     onstart onend onerror attemptRestart run_closure clearSilenceTimer
     clearRestartTimer recognition_start recognition_stop recognition_abort
     engine_call call_error call_result has_recognition result_handler_installed
     elapse Date_now setTimeout clearTimeout emit assign this when
     try_catch try_finally bind ret throw with_svc install_onresult
     update_svc record_action schedule cancel advance
     set_recognition set_isListening set_isAborting set_shouldBeListening
     set_isPausedState set_transcript set_interimTranscript set_silenceTimer
     set_restartTimer set_lastResultTime set_currentLanguage
     set_onResultCallback set_onErrorCallback set_restartAttempts
     null_deref fire onresult fst snd
     svc timers next_handle now trace recognition isListening isAborting
     shouldBeListening isPausedState transcript interimTranscript
     silenceTimer restartTimer lastResultTime currentLanguage
     onResultCallback onErrorCallback restartAttempts maxRestartAttempts
     continuous interimResults lang maxAlternatives onresult_installed
     is_Error_including is_Error_not_including
     negb andb orb] in *.

Ltac open_world w :=
  let s := fresh "s" in
  destruct w as [s ? ? ? ?];
  destruct s as [? ? ? ? ? ? ? ? ? ? ? ? ? ? ?].

(** The test a computation is stuck on. *)
Ltac stuck_in t :=
  lazymatch t with
  | match ?x with _ => _ end => stuck_in x
  | (match ?x with _ => _ end) _ => stuck_in x
  | _ => t
  end.

Ltac is_constructor y :=
  lazymatch y with
  | true => idtac
  | false => idtac
  | Some _ => idtac
  | None => idtac
  | Returns => idtac
  | Throws _ => idtac
  | ErrorObject _ => idtac
  | OtherValue => idtac
  | RestartAfterEnd => idtac
  | CooldownElapsed => idtac
  | RetryAfterFailure => idtac
  end.

Ltac case_on y :=
  lazymatch type of y with
  | bool => first [is_var y; destruct y | destruct y eqn:?]
  | option _ => first [is_var y; destruct y | destruct y eqn:?]
  | reply => destruct y
  | thrown => destruct y
  | timer_callback => first [is_var y; destruct y | destruct y eqn:?]
  | SpeechRecognition => is_var y; destruct y
  | timer => is_var y; destruct y
  end.

Lemma append_assoc (a b c : string) :
  ((a ++ b) ++ c)%string = (a ++ (b ++ c))%string.
Proof.
  induction a as [|ch a IH]; simpl; [reflexivity | now rewrite IH].
Qed.

Lemma append_empty_r (a : string) : (a ++ "")%string = a.
Proof.
  induction a as [|ch a IH]; simpl; [reflexivity | now rewrite IH].
Qed.

Lemma length_append (a b : string) :
  String.length (a ++ b)%string = String.length a + String.length b.
Proof.
  induction a as [|ch a IH]; simpl; [reflexivity | now rewrite IH].
Qed.

Lemma is_prefix_refl (a : string) : is_prefix a a.
Proof. exists ""%string. now rewrite append_empty_r. Qed.

Lemma is_prefix_trans (a b c : string) :
  is_prefix a b -> is_prefix b c -> is_prefix a c.
Proof.
  intros [x ->] [y ->]. exists (x ++ y)%string. apply append_assoc.
Qed.

Lemma is_prefix_append (a b : string) : is_prefix a (a ++ b)%string.
Proof. now exists b. Qed.

Lemma is_prefix_no_longer (a b : string) : is_prefix a b -> no_longer a b.
Proof.
  intros [x ->]. unfold no_longer. rewrite length_append. lia.
Qed.

(** The loop of the result handler, in closed form. *)
Lemma for_results_closed_form (rs : list SpeechRecognitionResult) (w : World) :
  for_results rs w =
  (Normal tt,
   with_svc
     (set_interimTranscript
        (interimTranscript (svc w) ++
         join (map first_transcript (filter (fun res => negb (isFinal res)) rs)))%string
        (set_transcript
           (transcript (svc w) ++
            join (map (fun res => first_transcript res ++ " ")
                      (filter isFinal rs)))%string
           (svc w))) w).
Proof.
  revert w. induction rs as [|res rs IH]; intros w.
  - open_world w; cbn; now rewrite !append_empty_r.
  - cbn [for_results]. unfold bind at 1.
    destruct (isFinal res) eqn:Hfin; cbn [assign filter map join fold_right negb];
      rewrite Hfin; cbn [negb map join fold_right]; rewrite IH;
      open_world w; cbn; now rewrite ?append_assoc.
Qed.

Ltac head_step :=
  lazymatch goal with
  | |- ?lhs = ?rhs -> ?P =>
      let r := eval js_head in rhs in
      let H := fresh in
      assert (H : lhs = r -> P); [ | vm_cast_no_check H ]
  end.

Ltac innermost x :=
  lazymatch x with
  | match ?y with _ => _ end => innermost y
  | _ => x
  end.

Ltac decide_stuck :=
  lazymatch goal with
  | |- _ = ?rhs -> _ =>
      lazymatch rhs with
      | match _ with _ => _ end =>
          let x := stuck_in rhs in
          lazymatch x with
          | for_results _ _ => rewrite for_results_closed_form
          | _ =>
              let x0 := eval js_full in x in
              let x1 := eval cbv in x0 in
              let x' := lazymatch x1 with
                        | true => x1
                        | false => x1
                        | _ => x0
                        end in
              tryif constr_eq x x' then idtac else
                (let E := fresh "E" in
                 assert (E : x = x') by (cbv; reflexivity);
                 rewrite E; clear E);
              let y := innermost x' in
              first [is_constructor y | case_on y]
          end
      end
  end.

(** Symbolic execution of [step e w] (or of [m w]) in the goal: the world
    is opened into its fields, the computation is run, splitting on each
    test it reaches, and the final world is computed. *)
Ltac symex_term t :=
  let w' := fresh "w'" in
  let H := fresh "H" in
  remember t as w' eqn:H; revert H;
  repeat (head_step; decide_stuck);
  head_step; intros ->.

Ltac symex_only :=
  lazymatch goal with
  | |- context [step ?e ?w] => symex_term (step e w)
  | |- context [exec ?m ?w] => symex_term (exec m w)
  | |- context [outcome ?m ?w] => symex_term (outcome m w)
  end.

Ltac symex := symex_only; run_js.

(** ** Recognition updates (C1) *)

(** C1, counterexample: with the three finalized fragments "Hello ",
    "world ", "today " the handler appends a further space after each, so
    [stop()] returns the text with doubled spaces and not
    "Hello world today ". *)
Lemma scenario_A_as_written_doubles_spaces :
  outcome (stop Returns) (run scenario_A_as_written (boot true))
    = Normal "Hello  world  today  " /\
  outcome (stop Returns) (run scenario_A_as_written (boot true))
    <> Normal "Hello world today ".
Proof.
  split; [reflexivity | discriminate].
Qed.

Lemma onresult_effect (ev : SpeechRecognitionEvent) (w : World) :
  transcript (svc (exec (onresult ev) w)) =
    (transcript (svc w) ++
     join (map (fun fragment => fragment ++ " ") (finalized_fragments ev)))%string /\
  interimTranscript (svc (exec (onresult ev) w)) = join (pending_fragments ev) /\
  trace (exec (onresult ev) w) =
    trace w ++
    match onResultCallback (svc w) with
    | Some cb =>
        [ResultCallback cb
           (interimTranscript (svc (exec (onresult ev) w)))
           (transcript (svc (exec (onresult ev) w)))]
    | None => []
    end.
Proof.
  unfold finalized_fragments, pending_fragments, fresh_results.
  rewrite map_map.
  open_world w; symex; rewrite ?app_nil_r; auto.
Qed.

Lemma finalized_update_effect (text : string) (w : World) :
  result_handler_installed (svc w) = true ->
  transcript (svc (step (finalized_update text) w)) =
    (transcript (svc w) ++ text ++ " ")%string /\
  result_handler_installed (svc (step (finalized_update text) w)) = true.
Proof.
  intros Hinst. unfold finalized_update. open_world w.
  symex; try discriminate; cbn; rewrite ?append_empty_r; auto.
Qed.

Lemma start_on_fresh_service (cb : callback) (onError : option callback) (r : reply) :
  transcript (svc (step (CallStart cb onError r) (boot true))) = "" /\
  result_handler_installed (svc (step (CallStart cb onError r) (boot true))) = true.
Proof.
  cbv [boot constructor setupRecognition field_defaults].
  symex; auto.
Qed.

Lemma stop_returns_transcript (r : reply) (w : World) :
  outcome (stop r) w = Normal (transcript (svc w)).
Proof.
  open_world w; symex; reflexivity.
Qed.

(** C1, amended: every recognition update appends each newly finalized
    fragment followed by one space, in order, to the committed text,
    replaces the pending text with the concatenation of the update's
    not-yet-final fragments and hands both to the result callback; so after
    [start()] and three finalized updates carrying "Hello", "world" and
    "today", [stop()] returns "Hello world today ". *)
Theorem result_update_commits_fragments_with_separator :
  (forall ev w,
     transcript (svc (exec (onresult ev) w)) =
       (transcript (svc w) ++
        join (map (fun fragment => fragment ++ " ") (finalized_fragments ev)))%string /\
     interimTranscript (svc (exec (onresult ev) w)) = join (pending_fragments ev) /\
     trace (exec (onresult ev) w) =
       trace w ++
       match onResultCallback (svc w) with
       | Some cb =>
           [ResultCallback cb
              (interimTranscript (svc (exec (onresult ev) w)))
              (transcript (svc (exec (onresult ev) w)))]
       | None => []
       end) /\
  (forall cb onError r r',
     outcome (stop r') (run (scenario_A cb onError r) (boot true))
       = Normal "Hello world today ").
Proof.
  split.
  - apply onresult_effect.
  - intros cb onError r r'. rewrite stop_returns_transcript.
    unfold scenario_A. cbn [run fold_left].
    destruct (start_on_fresh_service cb onError r) as [Ht0 Hi0].
    destruct (finalized_update_effect "Hello" _ Hi0) as [Ht1 Hi1].
    destruct (finalized_update_effect "world" _ Hi1) as [Ht2 Hi2].
    destruct (finalized_update_effect "today" _ Hi2) as [Ht3 _].
    rewrite Ht3, Ht2, Ht1, Ht0. reflexivity.
Qed.

(** ** Stopping an inactive manager (C2) *)

(** C2, counterexample: [stop()] on a manager that has never been started
    returns normally, with the empty text. *)
Lemma stop_without_session_returns :
  outcome (stop Returns) (boot true) = Normal "".
Proof. reflexivity. Qed.

(** C2, amended: [stop()] never fails: it returns the committed text
    whatever the state, leaves [shouldBeListening] false and both callbacks
    detached, and when the engine is not listening it makes no engine call
    and invokes no callback. *)
Theorem stop_never_fails (r : reply) (w : World) :
  outcome (stop r) w = Normal (transcript (svc w)) /\
  shouldBeListening (svc (exec (stop r) w)) = false /\
  onResultCallback (svc (exec (stop r) w)) = None /\
  onErrorCallback (svc (exec (stop r) w)) = None /\
  (isListening (svc w) = false -> trace (exec (stop r) w) = trace w).
Proof.
  open_world w; symex_only; symex; repeat split; auto; discriminate.
Qed.

Lemma stop_never_fails_witness :
  trace (exec (stop Returns) (boot true)) = trace (boot true).
Proof.
  apply (stop_never_fails Returns (boot true)). reflexivity.
Defined.

(** ** The text handed to the result callback (C3) *)

Ltac trace_witness :=
  rewrite <- ?app_assoc;
  lazymatch goal with
  | |- exists acts, ?t = ?t ++ acts /\ _ =>
      exists []; split; [now rewrite app_nil_r|]
  | |- exists acts, ?t ++ ?a = ?t ++ acts /\ _ =>
      exists a; split; [reflexivity|]
  end.

(** Every event other than a session-opening [start] extends the trace,
    keeps the committed text as a prefix of the new one, and hands the
    result callback nothing but the new committed text. *)
Lemma step_extends (e : event) (w : World) :
  opens_session e w = false ->
  exists acts,
    trace (step e w) = trace w ++ acts /\
    is_prefix (transcript (svc w)) (transcript (svc (step e w))) /\
    Forall (fun final => final = transcript (svc (step e w))) (finalTexts acts).
Proof.
  intros Hopen. unfold opens_session in Hopen.
  destruct e; open_world w; symex; try discriminate; trace_witness;
    cbn [finalTexts flat_map app];
    (split; [first [apply is_prefix_refl | apply is_prefix_append]
            | repeat constructor]).
Qed.

Lemma finalTexts_app (l1 l2 : list action) :
  finalTexts (l1 ++ l2) = finalTexts l1 ++ finalTexts l2.
Proof. apply flat_map_app. Qed.

Section Chains.

Variable R : string -> string -> Prop.
Hypothesis R_refl : forall a, R a a.

(** A run of copies of [t] before a chain that starts above [t] is a
    chain. *)
Lemma StronglySorted_block (t : string) (l1 l2 : list string) :
  Forall (fun x => x = t) l1 ->
  StronglySorted R l2 ->
  Forall (R t) l2 ->
  StronglySorted R (l1 ++ l2).
Proof.
  intros H1 H2 H3. induction l1 as [|x l1 IH]; simpl; [assumption|].
  inversion H1 as [|? ? Hx Hrest]; subst.
  constructor; [apply IH; assumption|].
  apply Forall_app. split; [|assumption].
  eapply Forall_impl; [|exact Hrest]. intros a ->. apply R_refl.
Qed.

End Chains.

Lemma StronglySorted_weaken (R S : string -> string -> Prop) (l : list string) :
  (forall a b, R a b -> S a b) ->
  StronglySorted R l -> StronglySorted S l.
Proof.
  intros HRS H. induction H as [|a l _ IH Hall]; constructor; [assumption|].
  eapply Forall_impl; [|exact Hall]. auto.
Qed.

Lemma session_extends (es : list event) :
  forall w,
    within_session es w ->
    exists acts,
      trace (run es w) = trace w ++ acts /\
      StronglySorted is_prefix (finalTexts acts) /\
      Forall (is_prefix (transcript (svc w))) (finalTexts acts) /\
      is_prefix (transcript (svc w)) (transcript (svc (run es w))).
Proof.
  induction es as [|e es IH]; intros w Hs.
  - exists []. cbn. rewrite app_nil_r.
    repeat split; try constructor. apply is_prefix_refl.
  - destruct Hs as [Hopen Hrest].
    destruct (step_extends e w Hopen) as (a1 & Ht1 & Hp1 & Hf1).
    destruct (IH (step e w) Hrest) as (a2 & Ht2 & Hs2 & Hall2 & Hp2).
    exists (a1 ++ a2). change (run (e :: es) w) with (run es (step e w)).
    rewrite finalTexts_app. repeat split.
    + now rewrite Ht2, Ht1, app_assoc.
    + eapply StronglySorted_block; eauto using is_prefix_refl.
    + apply Forall_app. split.
      * eapply Forall_impl; [|exact Hf1]. intros final ->. exact Hp1.
      * eapply Forall_impl; [|exact Hall2].
        intros final Hfinal. eapply is_prefix_trans; eauto.
    + eapply is_prefix_trans; eauto.
Qed.

(** C3: over any sequence of events of one session (engine restarts,
    timers, pause and resume included; no [start] that opens a new
    session), the [finalText] values handed to the result callback form a
    chain: each is a prefix of, and no longer than, every later one, and
    the committed text at the beginning is a prefix of the committed text at
    the end. *)
Theorem finalText_is_append_only (es : list event) (w : World) :
  within_session es w ->
  exists acts,
    trace (run es w) = trace w ++ acts /\
    StronglySorted is_prefix (finalTexts acts) /\
    StronglySorted no_longer (finalTexts acts) /\
    is_prefix (transcript (svc w)) (transcript (svc (run es w))).
Proof.
  intros Hs. destruct (session_extends es w Hs) as (acts & Ht & Hsorted & _ & Hp).
  exists acts. repeat split; try assumption.
  eapply StronglySorted_weaken; [|exact Hsorted].
  apply is_prefix_no_longer.
Qed.

Lemma finalText_is_append_only_witness :
  exists acts,
    trace (run session_with_restart (step (CallStart 0 None Returns) (boot true))) =
      trace (step (CallStart 0 None Returns) (boot true)) ++ acts /\
    StronglySorted is_prefix (finalTexts acts) /\
    StronglySorted no_longer (finalTexts acts) /\
    is_prefix (transcript (svc (step (CallStart 0 None Returns) (boot true))))
      (transcript (svc (run session_with_restart
                          (step (CallStart 0 None Returns) (boot true))))).
Proof.
  apply (finalText_is_append_only session_with_restart
           (step (CallStart 0 None Returns) (boot true))).
  vm_compute. repeat split; reflexivity.
Defined.

(** ** Restarts after the engine ends (C4) *)

(** C4, counterexample: two engine-ended events in a row, with no engine
    start in between, leave two restarts pending at once. *)
Lemma two_engine_ended_events_schedule_two_restarts :
  timers (run [CallStart 0 None Returns; EngineStarted; EngineEnded; EngineEnded]
              (boot true)) =
    [{| handle := 1; delay := 100; due := 100; closure := RestartAfterEnd |};
     {| handle := 2; delay := 100; due := 100; closure := RestartAfterEnd |}].
Proof. reflexivity. Qed.

(** C4, amended: each engine-ended event that arrives while the intent is
    to listen, with no abort in progress and no pause, schedules exactly one
    restart 100 ms later and records its handle; restarts are not merged
    when they are scheduled, but a scheduled restart that fires once the
    engine is listening again calls nothing and schedules nothing. *)
Theorem engine_ended_schedules_one_restart :
  (forall w,
     has_recognition (svc w) = true ->
     shouldBeListening (svc w) = true ->
     isAborting (svc w) = false ->
     isPausedState (svc w) = false ->
     timers (step EngineEnded w) =
       timers w ++ [{| handle := next_handle w; delay := 100;
                       due := now w + 100; closure := RestartAfterEnd |}] /\
     restartTimer (svc (step EngineEnded w)) = Some (next_handle w) /\
     trace (step EngineEnded w) = trace w) /\
  (forall w h r,
     isListening (svc w) = true ->
     trace (step (TimerFires h r) w) = trace w /\
     next_handle (step (TimerFires h r) w) = next_handle w /\
     (timers (step (TimerFires h r) w) = timers w \/
      timers (step (TimerFires h r) w) = drop_timer h (timers w))).
Proof.
  split.
  - intros w Hrec Hsbl Hab Hps. open_world w. symex; try discriminate; auto.
  - intros w h r Hl. open_world w. symex; try discriminate; auto.
Qed.

Lemma engine_ended_schedules_one_restart_witness :
  (timers (step EngineEnded listening_world) =
     timers listening_world ++
       [{| handle := next_handle listening_world; delay := 100;
           due := now listening_world + 100; closure := RestartAfterEnd |}] /\
   restartTimer (svc (step EngineEnded listening_world)) =
     Some (next_handle listening_world) /\
   trace (step EngineEnded listening_world) = trace listening_world) /\
  trace (step (TimerFires 1 Returns) listening_with_stale_restart) =
    trace listening_with_stale_restart.
Proof.
  split.
  - apply (proj1 engine_ended_schedules_one_restart listening_world);
      reflexivity.
  - apply (proj2 engine_ended_schedules_one_restart
             listening_with_stale_restart 1 Returns). reflexivity.
Defined.

(** ** Pause and a restart that is already scheduled (C5) *)

(** C5, the code at the failing input: [pause()] leaves the scheduled
    restart in the timer queue, and when it fires the engine is started
    although the pause intent is set; [stop()] on the same path cancels the
    restart and the engine is not started again. *)
Lemma pause_does_not_cancel_scheduled_restart :
  (timers (run [CallStart 0 None Returns; EngineStarted; EngineEnded;
                CallPause Returns] (boot true)) =
     [{| handle := 1; delay := 100; due := 100; closure := RestartAfterEnd |}] /\
   isPausedState (svc (run pause_during_pending_restart (boot true))) = true /\
   trace (run pause_during_pending_restart (boot true)) =
     [EngineStart; EngineStart]) /\
  (timers (run [CallStart 0 None Returns; EngineStarted; EngineEnded;
                CallStop Returns] (boot true)) = [] /\
   trace (run stop_during_pending_restart (boot true)) = [EngineStart]).
Proof. repeat split; reflexivity. Qed.

(** ** Engine errors (C6) *)

Lemma engine_starts_app (l1 l2 : list action) :
  engine_starts (l1 ++ l2) = engine_starts l1 + engine_starts l2.
Proof.
  unfold engine_starts. now rewrite filter_app, length_app.
Qed.

(** While the intent to listen is cleared, nothing but [start] calls the
    engine's [start()] or schedules a timer. *)
Lemma inactive_step (e : event) (w : World) :
  shouldBeListening (svc w) = false ->
  is_CallStart e = false ->
  shouldBeListening (svc (step e w)) = false /\
  engine_starts (trace (step e w)) = engine_starts (trace w) /\
  next_handle (step e w) = next_handle w.
Proof.
  intros Hsbl Hstart.
  destruct e; try discriminate; open_world w; symex; try discriminate;
    rewrite ?engine_starts_app; cbn; auto with arith.
Qed.

Lemma inactive_run (es : list event) :
  forall w,
    shouldBeListening (svc w) = false ->
    forallb (fun e => negb (is_CallStart e)) es = true ->
    shouldBeListening (svc (run es w)) = false /\
    engine_starts (trace (run es w)) = engine_starts (trace w) /\
    next_handle (run es w) = next_handle w.
Proof.
  induction es as [|e es IH]; intros w Hsbl Hes; [cbn; auto|].
  cbn in Hes. apply andb_true_iff in Hes. destruct Hes as [He Hes].
  apply negb_true_iff in He.
  destruct (inactive_step e w Hsbl He) as (H1 & H2 & H3).
  destruct (IH (step e w) H1 Hes) as (H4 & H5 & H6).
  change (run (e :: es) w) with (run es (step e w)).
  repeat split; congruence.
Qed.

Lemma fatal_code_cases (code : string) :
  fatal_code code = true -> code = "audio-capture" \/ code = "not-allowed".
Proof.
  unfold fatal_code. intros H. apply orb_true_iff in H.
  destruct H as [H|H]; apply String.eqb_eq in H; auto.
Qed.

Lemma transient_code_cases (code : string) :
  transient_code code = true -> code = "no-speech" \/ code = "network".
Proof.
  unfold transient_code. intros H. apply orb_true_iff in H.
  destruct H as [H|H]; apply String.eqb_eq in H; auto.
Qed.

Lemma fatal_error_effect (code : string) (w : World) :
  fatal_code code = true ->
  shouldBeListening (svc (exec (onerror code) w)) = false /\
  next_handle (exec (onerror code) w) = next_handle w /\
  trace (exec (onerror code) w) =
    trace w ++ match onErrorCallback (svc w) with
               | Some cb => [ErrorCallback cb (fatal_message code)]
               | None => []
               end.
Proof.
  intros Hfatal.
  destruct (fatal_code_cases code Hfatal) as [-> | ->]; open_world w;
    symex; rewrite ?app_nil_r; auto.
Qed.

(** C6: a fatal engine error ("audio-capture", "not-allowed") clears
    [shouldBeListening] at once and invokes the error callback once if one is
    registered (never more than once per error event), and from then on no
    event other than a new [start()] calls the engine's [start()] or
    schedules a restart; a transient error ("no-speech", "network") changes
    nothing and reaches no callback. *)
Theorem engine_errors_are_classified (code : string) (w : World) :
  (fatal_code code = true ->
     shouldBeListening (svc (exec (onerror code) w)) = false /\
     trace (exec (onerror code) w) =
       trace w ++ match onErrorCallback (svc w) with
                  | Some cb => [ErrorCallback cb (fatal_message code)]
                  | None => []
                  end /\
     length (error_messages (trace (exec (onerror code) w)))
       <= S (length (error_messages (trace w))) /\
     (forall es,
        forallb (fun e => negb (is_CallStart e)) es = true ->
        engine_starts (trace (run es (exec (onerror code) w))) =
          engine_starts (trace (exec (onerror code) w)) /\
        next_handle (run es (exec (onerror code) w)) = next_handle w)) /\
  (transient_code code = true ->
     outcome (onerror code) w = Normal tt /\ exec (onerror code) w = w).
Proof.
  split.
  - intros Hfatal.
    destruct (fatal_error_effect code w Hfatal) as (Hsbl & Hnh & Htrace).
    repeat split; try assumption.
    + rewrite Htrace. unfold error_messages. rewrite flat_map_app, length_app.
      destruct (onErrorCallback (svc w)); cbn; lia.
    + destruct (inactive_run es _ Hsbl H) as (_ & Hes & _). exact Hes.
    + destruct (inactive_run es _ Hsbl H) as (_ & _ & Hes). congruence.
  - intros Htransient.
    destruct (transient_code_cases code Htransient) as [-> | ->]; open_world w;
      symex_only; symex; auto.
Qed.

Lemma engine_errors_are_classified_witness :
  (shouldBeListening (svc (exec (onerror "not-allowed") listening_world)) = false /\
   trace (exec (onerror "not-allowed") listening_world) =
     trace listening_world ++
       match onErrorCallback (svc listening_world) with
       | Some cb => [ErrorCallback cb (fatal_message "not-allowed")]
       | None => []
       end /\
   length (error_messages (trace (exec (onerror "not-allowed") listening_world)))
     <= S (length (error_messages (trace listening_world))) /\
   (forall es,
      forallb (fun e => negb (is_CallStart e)) es = true ->
      engine_starts (trace (run es (exec (onerror "not-allowed") listening_world))) =
        engine_starts (trace (exec (onerror "not-allowed") listening_world)) /\
      next_handle (run es (exec (onerror "not-allowed") listening_world)) =
        next_handle listening_world)) /\
  (outcome (onerror "network") listening_world = Normal tt /\
   exec (onerror "network") listening_world = listening_world).
Proof.
  split.
  - apply (proj1 (engine_errors_are_classified "not-allowed" listening_world)).
    reflexivity.
  - apply (proj2 (engine_errors_are_classified "network" listening_world)).
    reflexivity.
Defined.

(** ** The restart ceiling (C7) *)








(** ** The listening flag and the intent flags (C9) *)

(** C9, counterexample: right after [pause()] on a listening service the
    engine is still marked as listening while the pause intent is set
    (reachable from a fresh page). *)
Lemma pause_leaves_isListening_set :
  reachable (run [CallStart 0 None Returns; EngineStarted; CallPause Returns]
                 (boot true)) /\
  ~ listening_invariant
      (svc (run [CallStart 0 None Returns; EngineStarted; CallPause Returns]
                (boot true))).
Proof.
  split.
  - cbn [run fold_left]. repeat apply reachable_step. apply reachable_boot.
  - intros H. destruct (H eq_refl) as [_ Hpaused]. discriminate Hpaused.
Qed.

(** Known tests are put into the hypotheses that mention them. *)
Ltac use_tests :=
  repeat match goal with
         | E : ?x = _, H : context [?x] |- _ =>
             lazymatch type of H with
             | x = _ => fail
             | _ => rewrite E in H; cbv beta iota in H
             end
         end.

Ltac settle := use_tests; try discriminate; try (intuition congruence).

Lemma keeps_listening_invariant_sound (e : event) (w : World) :
  has_recognition (svc w) = true ->
  keeps_listening_invariant e = true ->
  listening_invariant (svc w) ->
  listening_invariant (svc (step e w)).
Proof.
  unfold listening_invariant, keeps_listening_invariant, fatal_code.
  intros Hrec Hkeeps Hinv.
  destruct e; try discriminate; open_world w; symex; settle.
Qed.

Lemma boot_listening_invariant (supported : bool) :
  listening_invariant (svc (boot supported)).
Proof.
  destruct supported; cbv; discriminate.
Qed.

Lemma onstart_keeps_listening_invariant (w : World) :
  shouldBeListening (svc w) = true ->
  isPausedState (svc w) = false ->
  listening_invariant (svc (step EngineStarted w)).
Proof.
  unfold listening_invariant. intros Hsbl Hpaused.
  open_world w; symex; settle.
Qed.

Lemma awaits_engine_end_sound (e : event) (w : World) :
  awaits_engine_end e = true ->
  isListening (svc (step e w)) = isListening (svc w).
Proof.
  intros He. destruct e; try discriminate; open_world w; symex; settle.
Qed.

Lemma onend_clears_isListening (w : World) :
  has_recognition (svc w) = true ->
  isListening (svc (step EngineEnded w)) = false /\
  listening_invariant (svc (step EngineEnded w)).
Proof.
  unfold listening_invariant. intros Hrec.
  open_world w; symex; settle.
Qed.

(** C9, amended: [isListening] follows the engine, not the intent.  On a
    service with a recognition object, "isListening implies
    shouldBeListening and not paused" holds when the service is constructed
    and is preserved by [start], [resume], [setLanguage], [abort] when the
    engine's abort returns, the result handler, the engine-ended handler,
    non-fatal error events, the passing of time and timer-driven restarts
    whose [recognition.start()] does not throw "already started"; the
    engine-started handler preserves it when the intent is to listen and no
    pause is set.  [pause], [stop] and engine errors leave [isListening] as
    it is until the engine-ended event arrives, which always clears it and
    thereby re-establishes the implication. *)
Theorem listening_flag_follows_engine :
  (forall supported, listening_invariant (svc (boot supported))) /\
  (forall e w,
     has_recognition (svc w) = true ->
     keeps_listening_invariant e = true ->
     listening_invariant (svc w) ->
     listening_invariant (svc (step e w))) /\
  (forall w,
     shouldBeListening (svc w) = true ->
     isPausedState (svc w) = false ->
     listening_invariant (svc (step EngineStarted w))) /\
  (forall e w,
     awaits_engine_end e = true ->
     isListening (svc (step e w)) = isListening (svc w)) /\
  (forall w,
     has_recognition (svc w) = true ->
     isListening (svc (step EngineEnded w)) = false /\
     listening_invariant (svc (step EngineEnded w))).
Proof.
  split; [exact boot_listening_invariant|].
  split; [exact keeps_listening_invariant_sound|].
  split; [exact onstart_keeps_listening_invariant|].
  split; [exact awaits_engine_end_sound|].
  exact onend_clears_isListening.
Qed.

Lemma listening_flag_follows_engine_witness :
  listening_invariant (svc (step (CallResume Returns) engine_lost)) /\
  listening_invariant (svc (step EngineStarted engine_lost)) /\
  isListening (svc (step (CallPause Returns) listening_world)) =
    isListening (svc listening_world) /\
  isListening (svc (step EngineEnded listening_world)) = false.
Proof.
  split; [|split; [|split]].
  - apply (proj1 (proj2 listening_flag_follows_engine)
             (CallResume Returns) engine_lost).
    + vm_compute; reflexivity.
    + reflexivity.
    + intros H; vm_compute in H; discriminate H.
  - apply (proj1 (proj2 (proj2 listening_flag_follows_engine)) engine_lost);
      vm_compute; reflexivity.
  - apply (proj1 (proj2 (proj2 (proj2 listening_flag_follows_engine)))
             (CallPause Returns) listening_world).
    reflexivity.
  - refine (proj1 (proj2 (proj2 (proj2 (proj2 listening_flag_follows_engine)))
                      listening_world _)).
    vm_compute; reflexivity.
Defined.

(** ** A new session starts from empty text (C10) *)

Lemma has_recognition_step (e : event) (w : World) :
  has_recognition (svc (step e w)) = has_recognition (svc w).
Proof.
  destruct e; open_world w; symex; reflexivity.
Qed.

Lemma unsupported_step (e : event) (w : World) :
  has_recognition (svc w) = false ->
  transcript (svc (step e w)) = transcript (svc w) /\
  interimTranscript (svc (step e w)) = interimTranscript (svc w).
Proof.
  intros Hrec. destruct e; open_world w; symex; settle.
Qed.

(** Without a recognition object no text is ever stored. *)
Lemma unsupported_has_no_text (w : World) :
  reachable w ->
  has_recognition (svc w) = false ->
  transcript (svc w) = "" /\ interimTranscript (svc w) = "".
Proof.
  induction 1 as [supported | e w Hreach IH]; intros Hrec.
  - destruct supported; [discriminate Hrec | split; reflexivity].
  - rewrite has_recognition_step in Hrec.
    destruct (unsupported_step e w Hrec) as [-> ->]. auto.
Qed.

Lemma reachable_run (es : list event) :
  forall w, reachable w -> reachable (run es w).
Proof.
  induction es as [|e es IH]; intros w Hw; [exact Hw|].
  apply (IH (step e w)). now apply reachable_step.
Qed.

Lemma start_on_supported (cb : callback) (onError : option callback) (r : reply)
  (w : World) :
  has_recognition (svc w) = true ->
  shouldBeListening (svc w) = false ->
  transcript (svc (step (CallStart cb onError r) w)) = "" /\
  interimTranscript (svc (step (CallStart cb onError r) w)) = "" /\
  exists rest, trace (step (CallStart cb onError r) w) =
                 trace w ++ EngineStart :: rest.
Proof.
  intros Hrec Hsbl. open_world w. symex; try discriminate;
    rewrite <- ?app_assoc; cbn [app]; repeat split; eauto.
Qed.

(** C10: in every state the service can reach, a [start()] call made while
    [shouldBeListening] is false leaves the committed and the pending text
    empty, however the engine's [start()] ends, and where there is a
    recognition object the engine is started in that same call; what the
    previous session committed is what [stop()] returns. *)
Theorem start_resets_text (cb : callback) (onError : option callback)
  (r r' : reply) (w : World) :
  reachable w ->
  shouldBeListening (svc w) = false ->
  transcript (svc (step (CallStart cb onError r) w)) = "" /\
  interimTranscript (svc (step (CallStart cb onError r) w)) = "" /\
  (has_recognition (svc w) = true ->
   exists rest, trace (step (CallStart cb onError r) w) =
                  trace w ++ EngineStart :: rest) /\
  outcome (stop r') w = Normal (transcript (svc w)).
Proof.
  intros Hreach Hsbl.
  destruct (has_recognition (svc w)) eqn:Hrec.
  - destruct (start_on_supported cb onError r w Hrec Hsbl) as (Ht & Hi & Htr).
    repeat split; auto. apply stop_returns_transcript.
  - destruct (unsupported_has_no_text w Hreach Hrec) as [Ht Hi].
    destruct (unsupported_step (CallStart cb onError r) w Hrec) as [Ht' Hi'].
    repeat split; try congruence. apply stop_returns_transcript.
Qed.

Lemma start_resets_text_witness :
  transcript (svc stopped_session) = "notes " /\
  transcript (svc (step (CallStart 1 None Returns) stopped_session)) = "" /\
  interimTranscript (svc (step (CallStart 1 None Returns) stopped_session)) = "".
Proof.
  split; [reflexivity|].
  assert (Hreach : reachable stopped_session)
    by (apply reachable_run, reachable_boot).
  destruct (start_resets_text 1 None Returns Returns stopped_session Hreach eq_refl)
    as (Ht & Hi & _).
  split; assumption.
Defined.

End TranscriptionFacts.

(** * Properties of the audio capture controller *)

Module RecorderFacts.
Import Js Recorder.

Lemma concat_nonempty (l : list Blob) :
  concat (filter nonempty l) = concat l.
Proof.
  induction l as [|b l IH]; [reflexivity|].
  destruct b as [|x b]; cbn; [exact IH | now rewrite IH].
Qed.

(** While the start-time handler is installed, chunks go to
    [options.onDataAvailable] (if any) and nowhere else. *)
Lemma chunks_before_stop_are_forwarded (before : list Blob) :
  forall k,
    mediaRecorderRef k = Some forwarding ->
    let k' := fold_left (fun k d => dataavailable d k) before k in
    mediaRecorderRef k' = Some forwarding /\
    isRecording k' = isRecording k /\
    promises k' = promises k /\
    streamRef k' = streamRef k /\
    processorRef k' = processorRef k /\
    timerRef k' = timerRef k /\
    levelMonitorRef k' = levelMonitorRef k /\
    intervals k' = intervals k /\
    delivered k' =
      delivered k ++ (if has_onDataAvailable k then filter nonempty before else []).
Proof.
  induction before as [|d before IH]; intros k Hrec; cbn [fold_left].
  - cbn. destruct (has_onDataAvailable k); rewrite app_nil_r; repeat split; auto.
  - assert (Hstep : mediaRecorderRef (dataavailable d k) = Some forwarding /\
                    isRecording (dataavailable d k) = isRecording k /\
                    promises (dataavailable d k) = promises k /\
                    streamRef (dataavailable d k) = streamRef k /\
                    processorRef (dataavailable d k) = processorRef k /\
                    timerRef (dataavailable d k) = timerRef k /\
                    levelMonitorRef (dataavailable d k) = levelMonitorRef k /\
                    intervals (dataavailable d k) = intervals k /\
                    has_onDataAvailable (dataavailable d k) = has_onDataAvailable k /\
                    delivered (dataavailable d k) =
                      delivered k ++
                      (if has_onDataAvailable k then filter nonempty [d] else [])).
    { unfold dataavailable. rewrite Hrec. cbn [ondataavailable forwarding filter].
      unfold nonempty.
      destruct (Nat.ltb 0 (size d)), (has_onDataAvailable k) eqn:Hopt; cbn;
        rewrite ?app_nil_r, ?Hopt; repeat split; auto. }
    destruct Hstep as (H1 & H2 & H3 & H4 & H5 & H6 & H7 & H8 & H9 & H10).
    specialize (IH (dataavailable d k) H1). cbv zeta in IH.
    destruct IH as (I1 & I2 & I3 & I4 & I5 & I6 & I7 & I8 & I9).
    repeat split; try congruence.
    rewrite I9, H10, H9, <- app_assoc. f_equal.
    cbn [filter]. destruct (has_onDataAvailable k), (nonempty d); reflexivity.
Qed.

(** Once [stopRecording] has installed its handler, the non-empty chunks
    are pushed, in order, on the [chunks] array of its promise. *)
Lemma chunks_after_stop_are_collected (after : list Blob) :
  forall k ps cs,
    mediaRecorderRef k = Some (collecting (length ps)) ->
    promises k = ps ++ [{| chunks := cs; settled := None |}] ->
    let k' := fold_left (fun k d => dataavailable d k) after k in
    mediaRecorderRef k' = Some (collecting (length ps)) /\
    promises k' =
      ps ++ [{| chunks := cs ++ filter nonempty after; settled := None |}].
Proof.
  assert (Hupdate : forall (ps : list promise) p f,
             update (length ps) f (ps ++ [p]) = ps ++ [f p]).
  { induction ps as [|q ps IH]; intros p f; cbn; [reflexivity|].
    now rewrite IH. }
  induction after as [|d after IH]; intros k ps cs Hrec Hps; cbn [fold_left].
  - cbn. now rewrite app_nil_r.
  - cbv zeta. cbn [filter]. unfold nonempty at 1.
    destruct (Nat.ltb 0 (size d)) eqn:Hd.
    + destruct (IH (dataavailable d k) ps (cs ++ [d])) as [I1 I2].
      * unfold dataavailable. rewrite Hrec. cbn [ondataavailable collecting].
        rewrite Hd. cbn. exact Hrec.
      * unfold dataavailable. rewrite Hrec. cbn [ondataavailable collecting].
        rewrite Hd. cbn [promises with_promises]. rewrite Hps, Hupdate.
        reflexivity.
      * split; [exact I1|]. rewrite I2, <- app_assoc. reflexivity.
    + assert (Hk : dataavailable d k = k).
      { unfold dataavailable. rewrite Hrec. cbn [ondataavailable collecting].
        now rewrite Hd. }
      rewrite Hk. apply IH; assumption.
Qed.

(** What one session resolves with: only the chunks the recorder emitted
    after [stopRecording] was called. *)
Lemma session_resolves_with_late_chunks (stream : MediaStream)
  (before after : list Blob) (onData onError : bool) :
  last_settlement (session stream before after (mount onData onError)) =
    Some (Resolved (new_Blob after)).
Proof.
  unfold session.
  set (k0 := startRecording (inl stream) Returns (mount onData onError)).
  assert (H0 : mediaRecorderRef k0 = Some forwarding) by reflexivity.
  destruct (chunks_before_stop_are_forwarded before k0 H0)
    as (H1 & H2 & H3 & _).
  set (k1 := fold_left (fun k d => dataavailable d k) before k0) in *.
  assert (Hrec : mediaRecorderRef (stopRecording k1) = Some (collecting 0) /\
                 promises (stopRecording k1) =
                   [] ++ [{| chunks := []; settled := None |}]).
  { unfold stopRecording. rewrite H1, H2, H3. cbn. auto. }
  destruct Hrec as [Hr Hp].
  destruct (chunks_after_stop_are_collected after (stopRecording k1) [] []
              Hr Hp) as [J1 J2].
  set (k2 := fold_left (fun k d => dataavailable d k) after (stopRecording k1)) in *.
  unfold last_settlement, stopped. rewrite J1. cbn [onstop collecting length].
  cbn [promises with_promises]. rewrite J2. cbn.
  unfold new_Blob. now rewrite concat_nonempty.
Qed.

(** C8, the code at the failing input: two chunks arrive during the
    recording, the caller stops, the recorder flushes a third chunk and
    reports its end.  The promise resolves with the third chunk alone, not
    with the concatenation of the three; the tracks are stopped, the
    processor is disposed and both timers are cleared. *)
Lemma stopRecording_keeps_only_chunks_after_stop :
  last_settlement (session [Live; Live] [[1]; [2]] [[3]] (mount false true)) =
    Some (Resolved [3]) /\
  new_Blob ([[1]; [2]] ++ [[3]]) = [1; 2; 3] /\
  streamRef (session [Live; Live] [[1]; [2]] [[3]] (mount false true)) =
    Some [Ended; Ended] /\
  option_map audioContext
    (processorRef (session [Live; Live] [[1]; [2]] [[3]] (mount false true))) =
    Some None /\
  intervals (session [Live; Live] [[1]; [2]] [[3]] (mount false true)) = [].
Proof. repeat split; reflexivity. Qed.

End RecorderFacts.

(** * Further properties of the transcription service *)

Module TranscriptionLifecycle.
Import Js Transcription TranscriptionFacts.
Local Open Scope js_scope.

(** X1.  Whatever the engine replies, no method and no handler of the service
    throws: every event completes normally (the callbacks the caller
    passed are taken to return). *)
Theorem handlers_never_throw (e : event) (w : World) :
  outcome (dispatch e) w = Normal tt.
Proof.
  destruct e; open_world w; symex; reflexivity.
Qed.

(** X2.  [start()] on a service whose session is active changes nothing: no
    engine call, no reset of the text, the callbacks stay as they are. *)
Theorem start_is_idempotent (cb : callback) (onError : option callback)
  (r : reply) (w : World) :
  has_recognition (svc w) = true ->
  shouldBeListening (svc w) = true ->
  step (CallStart cb onError r) w = w.
Proof.
  intros Hrec Hsbl. open_world w. symex; settle.
Qed.

Lemma start_is_idempotent_witness :
  step (CallStart 5 (Some 6) Returns) listening_world = listening_world.
Proof.
  apply (start_is_idempotent 5 (Some 6) Returns listening_world);
    vm_compute; reflexivity.
Defined.

(** X3.  Without a recognition object [start()] only reports "Speech
    Recognition API not supported" to the error callback it was given, if
    any; the service is left as it was. *)
Theorem start_unsupported (cb : callback) (onError : option callback)
  (r : reply) (w : World) :
  has_recognition (svc w) = false ->
  svc (step (CallStart cb onError r) w) = svc w /\
  timers (step (CallStart cb onError r) w) = timers w /\
  trace (step (CallStart cb onError r) w) =
    trace w ++ match onError with
               | Some f => [ErrorCallback f "Speech Recognition API not supported"]
               | None => []
               end.
Proof.
  intros Hrec. open_world w. symex; settle; rewrite ?app_nil_r; auto.
Qed.

Lemma start_unsupported_witness :
  svc (step (CallStart 5 (Some 6) Returns) (boot false)) = svc (boot false) /\
  timers (step (CallStart 5 (Some 6) Returns) (boot false)) = timers (boot false) /\
  trace (step (CallStart 5 (Some 6) Returns) (boot false)) =
    trace (boot false) ++ [ErrorCallback 6 "Speech Recognition API not supported"].
Proof.
  apply (start_unsupported 5 (Some 6) Returns (boot false)). reflexivity.
Defined.

(** X4.  How [start()] on an inactive service ends.  If the engine's [start()]
    throws an [Error] that does not mention "already started", the error
    callback gets the message (a fixed text when the message is empty) and
    the intent to listen is withdrawn.  In every other case (the call
    returns, the error says "already started", or something that is not an
    [Error] is thrown) nothing is reported and the session stays open. *)
Theorem start_outcome (cb : callback) (onError : option callback)
  (r : reply) (w : World) :
  has_recognition (svc w) = true ->
  shouldBeListening (svc w) = false ->
  onResultCallback (svc (step (CallStart cb onError r) w)) = Some cb /\
  onErrorCallback (svc (step (CallStart cb onError r) w)) = onError /\
  restartAttempts (svc (step (CallStart cb onError r) w)) = 0 /\
  shouldBeListening (svc (step (CallStart cb onError r) w)) =
    negb (start_gives_up r) /\
  trace (step (CallStart cb onError r) w) =
    trace w ++ EngineStart ::
      (if start_gives_up r
       then match onError with
            | Some f => [ErrorCallback f (start_failure_message r)]
            | None => []
            end
       else []).
Proof.
  intros Hrec Hsbl. unfold start_gives_up, start_failure_message.
  open_world w. symex; settle;
    rewrite <- ?app_assoc; cbn [app];
    repeat match goal with E : includes _ _ = _ |- _ => rewrite E end;
    cbn; auto.
Qed.

Lemma start_outcome_witness :
  shouldBeListening
    (svc (step (CallStart 5 (Some 6) (Throws (ErrorObject ""))) (boot true))) =
    negb (start_gives_up (Throws (ErrorObject ""))) /\
  trace (step (CallStart 5 (Some 6) (Throws (ErrorObject ""))) (boot true)) =
    [EngineStart; ErrorCallback 6 "Failed to start transcription"].
Proof.
  pose proof (start_outcome 5 (Some 6) (Throws (ErrorObject "")) (boot true)
                eq_refl eq_refl) as (_ & _ & _ & Hsbl & Htrace).
  split; [exact Hsbl | exact Htrace].
Defined.

(** ** Ending a session *)

Lemma pending_drop_timer (h : nat) (l : list timer) :
  existsb (fun t => Nat.eqb (handle t) h) (drop_timer h l) = false.
Proof.
  unfold drop_timer. induction l as [|t l IH]; [reflexivity|].
  cbn. destruct (Nat.eqb (handle t) h) eqn:E; cbn; [exact IH|].
  now rewrite E, IH.
Qed.

Lemma session_end_effect (e : event) (w : World) :
  ends_session e = true ->
  shouldBeListening (svc (step e w)) = false /\
  onResultCallback (svc (step e w)) = None /\
  onErrorCallback (svc (step e w)) = None /\
  restartTimer (svc (step e w)) = None /\
  (forall h, restartTimer (svc w) = Some h -> pending h (step e w) = false).
Proof.
  intros He. unfold pending.
  destruct e; try discriminate; open_world w; symex;
    repeat split; auto; try discriminate;
    intros h Hh; inversion Hh; subst;
    try apply pending_drop_timer.
Qed.

(** X5.  [stop()] and [abort()] withdraw the intent to listen, detach both
    callbacks and cancel the restart timer the service tracks: its handle
    leaves the host's queue.  With a recognition object, [abort()] leaves no
    abort in progress and, when the engine's abort returns, marks the engine
    as not listening. *)
Theorem ending_a_session_cancels_the_tracked_restart (r : reply) (w : World) :
  (forall e, e = CallStop r \/ e = CallAbort r ->
     shouldBeListening (svc (step e w)) = false /\
     onResultCallback (svc (step e w)) = None /\
     onErrorCallback (svc (step e w)) = None /\
     restartTimer (svc (step e w)) = None /\
     (forall h, restartTimer (svc w) = Some h -> pending h (step e w) = false)) /\
  (has_recognition (svc w) = true ->
     isAborting (svc (step (CallAbort r) w)) = false /\
     (r = Returns -> isListening (svc (step (CallAbort r) w)) = false)).
Proof.
  split.
  - intros e [-> | ->]; apply session_end_effect; reflexivity.
  - intros Hrec. open_world w. symex; settle.
Qed.

Lemma ending_a_session_cancels_the_tracked_restart_witness :
  pending 1 engine_lost = true /\
  pending 1 (step (CallStop Returns) engine_lost) = false /\
  isListening (svc (step (CallAbort Returns) listening_world)) = false.
Proof.
  split; [reflexivity|]. split.
  - refine (proj2 (proj2 (proj2 (proj2
      (proj1 (ending_a_session_cancels_the_tracked_restart Returns engine_lost)
         (CallStop Returns) (or_introl eq_refl))))) 1 _).
    vm_compute; reflexivity.
  - refine (proj2 (proj2 (ending_a_session_cancels_the_tracked_restart
                            Returns listening_world) _) eq_refl).
    vm_compute; reflexivity.
Defined.

(** X6.  After [stop()] or [abort()], whatever follows short of a new
    [start()] (timers that fire, engine events, [pause], [resume]), the
    engine's [start()] is not called and no timer is scheduled. *)
Theorem no_restart_after_session_end (e : event) (es : list event) (w : World) :
  ends_session e = true ->
  forallb (fun e' => negb (is_CallStart e')) es = true ->
  shouldBeListening (svc (run es (step e w))) = false /\
  engine_starts (trace (run es (step e w))) = engine_starts (trace (step e w)) /\
  next_handle (run es (step e w)) = next_handle (step e w).
Proof.
  intros He Hes.
  destruct (session_end_effect e w He) as (Hsbl & _).
  exact (inactive_run es (step e w) Hsbl Hes).
Qed.

Lemma no_restart_after_session_end_witness :
  engine_starts
    (trace (run [Elapse 100; TimerFires 1 Returns; CallResume Returns; EngineEnded]
                (step (CallStop Returns) engine_lost))) =
  engine_starts (trace (step (CallStop Returns) engine_lost)).
Proof.
  apply (no_restart_after_session_end (CallStop Returns)
           [Elapse 100; TimerFires 1 Returns; CallResume Returns; EngineEnded]
           engine_lost); reflexivity.
Defined.

Lemma callbacks_invoked_app (l1 l2 : list action) :
  callbacks_invoked (l1 ++ l2) = callbacks_invoked l1 + callbacks_invoked l2.
Proof.
  unfold callbacks_invoked. now rewrite filter_app, length_app.
Qed.

Lemma detached_step (e : event) (w : World) :
  onResultCallback (svc w) = None ->
  onErrorCallback (svc w) = None ->
  is_CallStart e = false ->
  onResultCallback (svc (step e w)) = None /\
  onErrorCallback (svc (step e w)) = None /\
  callbacks_invoked (trace (step e w)) = callbacks_invoked (trace w).
Proof.
  intros Hres Herr Hstart.
  destruct e; try discriminate; open_world w; symex; try discriminate;
    rewrite ?callbacks_invoked_app; cbn; auto with arith.
Qed.

Lemma detached_run (es : list event) :
  forall w,
    onResultCallback (svc w) = None ->
    onErrorCallback (svc w) = None ->
    forallb (fun e => negb (is_CallStart e)) es = true ->
    callbacks_invoked (trace (run es w)) = callbacks_invoked (trace w).
Proof.
  induction es as [|e es IH]; intros w Hres Herr Hes; [reflexivity|].
  cbn in Hes. apply andb_true_iff in Hes. destruct Hes as [He Hes].
  apply negb_true_iff in He.
  destruct (detached_step e w Hres Herr He) as (H1 & H2 & H3).
  change (run (e :: es) w) with (run es (step e w)).
  rewrite (IH (step e w) H1 H2 Hes). exact H3.
Qed.

(** X7.  Once [stop()] or [abort()] has returned, neither callback of the
    session is invoked again, whatever the engine or the timers deliver,
    until [start()] is called anew. *)
Theorem no_callback_after_session_end (e : event) (es : list event) (w : World) :
  ends_session e = true ->
  forallb (fun e' => negb (is_CallStart e')) es = true ->
  callbacks_invoked (trace (run es (step e w))) =
    callbacks_invoked (trace (step e w)).
Proof.
  intros He Hes.
  destruct (session_end_effect e w He) as (_ & Hres & Herr & _).
  exact (detached_run es (step e w) Hres Herr Hes).
Qed.

Lemma no_callback_after_session_end_witness :
  callbacks_invoked
    (trace (run [finalized_update "late"; EngineError "not-allowed"; EngineEnded]
                (step (CallStop Returns) listening_world))) =
  callbacks_invoked (trace (step (CallStop Returns) listening_world)).
Proof.
  apply (no_callback_after_session_end (CallStop Returns)
           [finalized_update "late"; EngineError "not-allowed"; EngineEnded]
           listening_world); reflexivity.
Defined.

(** ** Pause and resume *)

(** X8.  An engine-ended event that arrives while the pause intent is set
    schedules no restart and calls nothing. *)
Theorem engine_end_while_paused_schedules_nothing (w : World) :
  isPausedState (svc w) = true ->
  timers (step EngineEnded w) = timers w /\
  next_handle (step EngineEnded w) = next_handle w /\
  trace (step EngineEnded w) = trace w /\
  restartTimer (svc (step EngineEnded w)) = restartTimer (svc w).
Proof.
  intros Hpaused. open_world w. symex; settle.
Qed.

Lemma engine_end_while_paused_schedules_nothing_witness :
  timers (step EngineEnded (step (CallPause Returns) listening_world)) =
    timers (step (CallPause Returns) listening_world).
Proof.
  apply (engine_end_while_paused_schedules_nothing
           (step (CallPause Returns) listening_world)).
  vm_compute; reflexivity.
Defined.

(** X9.  [pause()] directly followed by [resume()] leaves the intent to listen,
    the text, the attempt counter and the tracked restart timer as they
    were and ends with the pause intent cleared.  If the engine was marked
    as listening it is only asked to stop (its end will schedule the
    restart); if it was not, and the intent is to listen, it is started at
    once. *)
Theorem pause_then_resume (r1 r2 : reply) (w : World) :
  has_recognition (svc w) = true ->
  isPausedState (svc (step (CallResume r2) (step (CallPause r1) w))) = false /\
  shouldBeListening (svc (step (CallResume r2) (step (CallPause r1) w))) =
    shouldBeListening (svc w) /\
  isListening (svc (step (CallResume r2) (step (CallPause r1) w))) =
    isListening (svc w) /\
  transcript (svc (step (CallResume r2) (step (CallPause r1) w))) =
    transcript (svc w) /\
  restartAttempts (svc (step (CallResume r2) (step (CallPause r1) w))) =
    restartAttempts (svc w) /\
  restartTimer (svc (step (CallResume r2) (step (CallPause r1) w))) =
    restartTimer (svc w) /\
  trace (step (CallResume r2) (step (CallPause r1) w)) =
    trace w ++
    (if isListening (svc w) then [EngineStop]
     else if shouldBeListening (svc w) then [EngineStart] else []).
Proof.
  intros Hrec. open_world w.
  lazymatch goal with
  | |- context [step (CallPause r1) ?w0] => symex_term (step (CallPause r1) w0)
  end;
  symex; settle; rewrite ?app_nil_r; repeat split; auto.
Qed.

Lemma pause_then_resume_witness :
  trace (step (CallResume Returns) (step (CallPause Returns) listening_world)) =
    trace listening_world ++ [EngineStop] /\
  trace (step (CallResume Returns) (step (CallPause Returns) engine_lost)) =
    trace engine_lost ++ [EngineStart].
Proof.
  split.
  - refine (proj2 (proj2 (proj2 (proj2 (proj2 (proj2
      (pause_then_resume Returns Returns listening_world _))))))).
    vm_compute; reflexivity.
  - refine (proj2 (proj2 (proj2 (proj2 (proj2 (proj2
      (pause_then_resume Returns Returns engine_lost _))))))).
    vm_compute; reflexivity.
Defined.

(** ** What holds in every reachable state *)

Lemma bounds_step (e : event) (w : World) :
  silenceTimer (svc w) = None ->
  maxRestartAttempts (svc w) = 3 ->
  restartAttempts (svc w) <= 3 ->
  silenceTimer (svc (step e w)) = None /\
  maxRestartAttempts (svc (step e w)) = 3 /\
  restartAttempts (svc (step e w)) <= 3.
Proof.
  intros Hsilence Hmax Hatt.
  destruct e; open_world w; symex; try discriminate; subst;
    repeat split; auto with arith;
    match goal with
    | E : Nat.leb 3 _ = false |- _ => apply Nat.leb_gt in E; lia
    end.
Qed.

Lemma reachable_bounds (w : World) :
  reachable w ->
  silenceTimer (svc w) = None /\
  maxRestartAttempts (svc w) = 3 /\
  restartAttempts (svc w) <= 3.
Proof.
  induction 1 as [supported | e w Hreach (H1 & H2 & H3)].
  - destruct supported; cbv; auto with arith.
  - now apply bounds_step.
Qed.

(** X10.  The ceiling is the constant 3 and the attempt counter never exceeds
    it, in every state the service can reach. *)
Theorem restart_attempts_are_bounded (w : World) :
  reachable w ->
  maxRestartAttempts (svc w) = 3 /\ restartAttempts (svc w) <= 3.
Proof.
  intros Hreach. destruct (reachable_bounds w Hreach) as (_ & H2 & H3). auto.
Qed.

Lemma restart_attempts_are_bounded_witness :
  maxRestartAttempts (svc engine_lost) = 3 /\ restartAttempts (svc engine_lost) <= 3.
Proof.
  apply (restart_attempts_are_bounded engine_lost).
  apply reachable_run, reachable_boot.
Defined.

(** X11.  The silence timer is never armed: in every reachable state the field
    is null, so [clearSilenceTimer] never cancels anything. *)
Theorem silence_timer_is_never_armed (w : World) :
  reachable w ->
  silenceTimer (svc w) = None /\
  exec clearSilenceTimer w = w.
Proof.
  intros Hreach. destruct (reachable_bounds w Hreach) as (H1 & _).
  split; [exact H1|]. open_world w. cbn in H1. subst. reflexivity.
Qed.

Lemma silence_timer_is_never_armed_witness :
  silenceTimer (svc stopped_session) = None /\
  exec clearSilenceTimer stopped_session = stopped_session.
Proof.
  apply (silence_timer_is_never_armed stopped_session).
  apply reachable_run, reachable_boot.
Defined.

Lemma language_step (e : event) (w : World) :
  (forall l, engine_lang (svc w) = Some l -> l = currentLanguage (svc w)) ->
  forall l, engine_lang (svc (step e w)) = Some l ->
            l = currentLanguage (svc (step e w)).
Proof.
  unfold engine_lang. intros Hinv.
  destruct e; open_world w; symex; cbn in *; intros l Hl;
    try discriminate; try (inversion Hl; subst; reflexivity);
    try (apply Hinv; assumption).
Qed.

(** X12.  The engine is always configured with the language the service
    reports: in every reachable state with a recognition object its [lang]
    is [getLanguage()], and [setLanguage] changes both. *)
Theorem engine_language_is_current (w : World) :
  reachable w ->
  (forall l, engine_lang (svc w) = Some l -> l = getLanguage (svc w)) /\
  (forall language,
     getLanguage (svc (step (CallSetLanguage language) w)) = language /\
     (has_recognition (svc w) = true ->
      engine_lang (svc (step (CallSetLanguage language) w)) = Some language)).
Proof.
  intros Hreach. split.
  - unfold getLanguage. induction Hreach as [supported | e w Hreach IH].
    + destruct supported; cbv; intros l Hl; [now inversion Hl | discriminate].
    + now apply language_step.
  - intros language. unfold getLanguage, engine_lang.
    open_world w. symex; settle.
Qed.

Lemma engine_language_is_current_witness :
  getLanguage (svc (step (CallSetLanguage "hi-IN") listening_world)) = "hi-IN" /\
  engine_lang (svc (step (CallSetLanguage "hi-IN") listening_world)) = Some "hi-IN".
Proof.
  assert (Hreach : reachable listening_world)
    by (apply reachable_run, reachable_boot).
  destruct (proj2 (engine_language_is_current listening_world Hreach) "hi-IN")
    as [Hget Hlang].
  split; [exact Hget | apply Hlang; vm_compute; reflexivity].
Defined.

(** ** Restart attempts and result updates at the edges *)

(** X13.  When a restart finds the engine already running
    ([recognition.start()] throws an error that says "already started"),
    the service marks the engine as listening, clears the attempt counter
    and schedules no retry. *)
Theorem restart_on_running_engine (e : thrown) (w : World) :
  restartable (svc w) ->
  restartAttempts (svc w) < maxRestartAttempts (svc w) ->
  is_Error_including "already started" e = true ->
  isListening (svc (exec (attemptRestart (Throws e)) w)) = true /\
  restartAttempts (svc (exec (attemptRestart (Throws e)) w)) = 0 /\
  timers (exec (attemptRestart (Throws e)) w) = timers w /\
  next_handle (exec (attemptRestart (Throws e)) w) = next_handle w /\
  trace (exec (attemptRestart (Throws e)) w) = trace w ++ [EngineStart].
Proof.
  intros (Hrec & Hsbl & Hab & Hl) Hlt He.
  open_world w; cbn in Hrec, Hsbl, Hab, Hl, Hlt; subst.
  apply Nat.leb_gt in Hlt. destruct e as [message|]; [|discriminate He].
  cbn in He. symex; settle.
Qed.

Lemma restart_on_running_engine_witness :
  isListening
    (svc (exec (attemptRestart restart_already_started) engine_lost)) = true /\
  restartAttempts
    (svc (exec (attemptRestart restart_already_started) engine_lost)) = 0.
Proof.
  pose proof (restart_on_running_engine
    (ErrorObject "Failed to execute 'start' on 'SpeechRecognition': recognition has already started.")
    engine_lost) as H.
  assert (Hw : restartable (svc engine_lost)) by (repeat split; reflexivity).
  assert (Hlt : restartAttempts (svc engine_lost) < maxRestartAttempts (svc engine_lost))
    by (vm_compute; lia).
  destruct (H Hw Hlt eq_refl) as (H1 & H2 & _).
  split; [exact H1 | exact H2].
Defined.

Lemma filter_none_final (rs : list SpeechRecognitionResult) :
  forallb (fun res => negb (isFinal res)) rs = true ->
  filter isFinal rs = [].
Proof.
  induction rs as [|res rs IH]; [reflexivity|]. cbn.
  intros H. apply andb_true_iff in H. destruct H as [Hres Hrs].
  apply negb_true_iff in Hres. rewrite Hres. auto.
Qed.

(** X14.  An update none of whose fresh results is final (in particular one
    whose [resultIndex] is not below the number of results) leaves the
    committed text untouched, and the result callback still receives it;
    when there is no fresh result at all the pending text becomes empty. *)
Theorem update_without_final_results (ev : SpeechRecognitionEvent) (w : World) :
  forallb (fun res => negb (isFinal res)) (fresh_results ev) = true ->
  transcript (svc (exec (onresult ev) w)) = transcript (svc w) /\
  finalTexts (trace (exec (onresult ev) w)) =
    finalTexts (trace w) ++
    match onResultCallback (svc w) with
    | Some _ => [transcript (svc w)]
    | None => []
    end /\
  (length (results ev) <= resultIndex ev ->
   interimTranscript (svc (exec (onresult ev) w)) = "").
Proof.
  intros Hnone.
  destruct (onresult_effect ev w) as (Ht & Hi & Htr).
  assert (Hsame : transcript (svc (exec (onresult ev) w)) = transcript (svc w)).
  { rewrite Ht. unfold finalized_fragments.
    rewrite (filter_none_final _ Hnone). cbn. apply append_empty_r. }
  split; [exact Hsame|]. split.
  - rewrite Htr, finalTexts_app, Hsame.
    destruct (onResultCallback (svc w)); reflexivity.
  - intros Hlen. rewrite Hi. unfold pending_fragments, fresh_results.
    rewrite skipn_all2 by exact Hlen. reflexivity.
Qed.

Lemma update_without_final_results_witness :
  transcript
    (svc (exec (onresult {| resultIndex := 2;
                            results := [{| first_transcript := "stale";
                                           isFinal := true |}] |})
               listening_world)) =
  transcript (svc listening_world).
Proof.
  exact (proj1 (update_without_final_results
                  {| resultIndex := 2;
                     results := [{| first_transcript := "stale";
                                    isFinal := true |}] |}
                  listening_world eq_refl)).
Defined.

End TranscriptionLifecycle.

(** * Further properties of the audio capture controller *)

Module RecorderLifecycle.
Import Js Recorder.

Lemma last_settlement_snoc (k : Hook) (ps : list promise) (p : promise) :
  promises k = ps ++ [p] -> last_settlement k = settled p.
Proof.
  unfold last_settlement. intros ->. now rewrite rev_app_distr.
Qed.

Lemma stopRecording_cases (k : Hook) :
  (exists m, mediaRecorderRef k = Some m /\ isRecording k = true /\
             state m <> Inactive /\
             isRecording (stopRecording k) = false /\
             promises (stopRecording k) =
               promises k ++ [{| chunks := []; settled := None |}]) \/
  (exists message,
     promises (stopRecording k) =
       promises k ++ [{| chunks := []; settled := Some (Rejected message) |}] /\
     isRecording (stopRecording k) = isRecording k /\
     isPaused (stopRecording k) = isPaused k /\
     duration (stopRecording k) = duration k /\
     streamRef (stopRecording k) = streamRef k /\
     processorRef (stopRecording k) = processorRef k /\
     intervals (stopRecording k) = intervals k /\
     contexts_closed (stopRecording k) = contexts_closed k /\
     (mediaRecorderRef k = None \/ isRecording k = false ->
      message = "No active recording" /\
      mediaRecorderRef (stopRecording k) = mediaRecorderRef k)).
Proof.
  unfold stopRecording.
  destruct (mediaRecorderRef k) as [m|] eqn:Hm.
  - destruct (isRecording k) eqn:Hrec.
    + destruct (state m) eqn:Hstate.
      * right. exists "InvalidStateError". cbn.
        repeat split; auto; destruct H; discriminate.
      * left. exists m. cbn. repeat split; auto; congruence.
      * left. exists m. cbn. repeat split; auto; congruence.
    + right. exists "No active recording". cbn. repeat split; auto.
  - right. exists "No active recording". cbn. repeat split; auto.
Qed.

(** X15.  [stopRecording()] without an active recording rejects with "No active
    recording" and touches nothing; [pauseRecording()] does nothing unless a
    recording is active, [resumeRecording()] nothing unless it is paused. *)
Theorem controls_are_guarded (k : Hook) :
  (mediaRecorderRef k = None \/ isRecording k = false ->
   last_settlement (stopRecording k) = Some (Rejected "No active recording") /\
   stopRecording k = with_promises (promises (stopRecording k)) k /\
   pauseRecording k = k) /\
  (mediaRecorderRef k = None \/ isPaused k = false -> resumeRecording k = k).
Proof.
  split.
  - intros H. destruct k. cbn in H.
    unfold stopRecording, pauseRecording, last_settlement, with_promises.
    destruct H as [H|H]; subst; [|destruct mediaRecorderRef0];
      cbn; rewrite rev_app_distr; cbn; repeat split; reflexivity.
  - intros H. destruct k. cbn in H. unfold resumeRecording.
    destruct H as [H|H]; subst; [|destruct mediaRecorderRef0]; reflexivity.
Qed.

Lemma controls_are_guarded_witness :
  last_settlement (stopRecording (mount false true)) =
    Some (Rejected "No active recording") /\
  resumeRecording recording_hook = recording_hook.
Proof.
  split.
  - exact (proj1 (proj1 (controls_are_guarded (mount false true))
                        (or_introl eq_refl))).
  - exact (proj2 (controls_are_guarded recording_hook) (or_intror eq_refl)).
Defined.

(** X16.  The second of two [stopRecording()] calls in a row always rejects, and
    releases nothing a second time: stream, processor, running intervals and
    the number of closed audio contexts are as the first call left them. *)
Theorem second_stop_rejects (k : Hook) :
  (exists message,
     last_settlement (stopRecording (stopRecording k)) = Some (Rejected message)) /\
  streamRef (stopRecording (stopRecording k)) = streamRef (stopRecording k) /\
  processorRef (stopRecording (stopRecording k)) = processorRef (stopRecording k) /\
  intervals (stopRecording (stopRecording k)) = intervals (stopRecording k) /\
  contexts_closed (stopRecording (stopRecording k)) =
    contexts_closed (stopRecording k).
Proof.
  destruct (stopRecording_cases (stopRecording k))
    as [(m & Hm & Hrec & Hstate & _) | (message & Hp & _ & _ & _ & Hs & Hpr & Hi & Hc & _)].
  - exfalso. revert Hm Hrec Hstate. unfold stopRecording.
    destruct (mediaRecorderRef k) as [m0|]; [|discriminate].
    destruct (isRecording k) eqn:Hrec0; cbn; [|congruence].
    destruct (state m0) eqn:Hs0; cbn; intros Hm Hrec Hstate;
      inversion Hm; subst; cbn in *; congruence.
  - split; [|auto]. exists message. now apply (last_settlement_snoc _ _ _ Hp).
Qed.

Lemma all_ended_after_stop (s : option MediaStream) :
  all_ended (option_map (map (fun _ => Ended)) s).
Proof.
  destruct s as [tracks|]; cbn; [|exact I].
  induction tracks; cbn; constructor; auto.
Qed.

Lemma disposed_after_stop (p : option AudioProcessor) :
  disposed (option_map processor_stop p).
Proof.
  destruct p; cbn; auto.
Qed.

Lemma cleared_interval_is_gone (h : nat) (l : list (nat * interval_kind)) :
  existsb (fun i => Nat.eqb (fst i) h) (clearInterval (Some h) l) = false.
Proof.
  cbn. induction l as [|i l IH]; [reflexivity|]. cbn.
  destruct (Nat.eqb (fst i) h) eqn:E; cbn; [exact IH|]. now rewrite E, IH.
Qed.

Lemma clearInterval_keeps_gone (h : nat) (ref : option nat)
  (l : list (nat * interval_kind)) :
  existsb (fun i => Nat.eqb (fst i) h) l = false ->
  existsb (fun i => Nat.eqb (fst i) h) (clearInterval ref l) = false.
Proof.
  destruct ref as [h'|]; [|auto]. cbn.
  induction l as [|i l IH]; [reflexivity|]. cbn.
  intros H. apply orb_false_iff in H. destruct H as [H1 H2].
  destruct (Nat.eqb (fst i) h'); cbn; [auto|]. now rewrite H1, IH.
Qed.

Lemma tracked_intervals_are_cleared (k : Hook) (h : nat) :
  timerRef k = Some h \/ levelMonitorRef k = Some h ->
  existsb (fun i => Nat.eqb (fst i) h)
    (clearInterval (levelMonitorRef k) (clearInterval (timerRef k) (intervals k)))
  = false.
Proof.
  intros [Hh|Hh]; rewrite Hh.
  - apply clearInterval_keeps_gone, cleared_interval_is_gone.
  - apply cleared_interval_is_gone.
Qed.

(** X17.  [stopRecording()] on an active recording declares the recording over,
    stops every track, stops the processor, clears both intervals the refs
    hold and leaves its promise pending until the recorder reports its
    end. *)
Theorem stop_releases_resources (k : Hook) (m : MediaRecorder) :
  mediaRecorderRef k = Some m ->
  isRecording k = true ->
  state m <> Inactive ->
  isRecording (stopRecording k) = false /\
  isPaused (stopRecording k) = false /\
  duration (stopRecording k) = 0 /\
  audioLevel (stopRecording k) = 0 /\
  all_ended (streamRef (stopRecording k)) /\
  disposed (processorRef (stopRecording k)) /\
  (forall h, timerRef k = Some h \/ levelMonitorRef k = Some h ->
             runs h (stopRecording k) = false) /\
  last_settlement (stopRecording k) = None.
Proof.
  intros Hm Hrec Hstate.
  pose proof (tracked_intervals_are_cleared k) as Hcleared.
  unfold stopRecording, runs, last_settlement. rewrite Hm, Hrec.
  destruct (state m) eqn:Hs; [congruence| |];
    cbn [isRecording isPaused duration audioLevel streamRef processorRef
         intervals promises];
    rewrite rev_app_distr; cbn [rev app settled];
    (split; [reflexivity|]); (split; [reflexivity|]);
    (split; [reflexivity|]); (split; [reflexivity|]);
    (split; [apply all_ended_after_stop|]);
    (split; [apply disposed_after_stop|]);
    (split; [exact Hcleared | reflexivity]).
Qed.

Lemma stop_releases_resources_witness :
  isRecording (stopRecording paused_hook) = false /\
  all_ended (streamRef (stopRecording paused_hook)) /\
  runs 1 (stopRecording recording_hook) = false.
Proof.
  split; [|split].
  - refine (proj1 (stop_releases_resources paused_hook
                     (with_recorder_state Paused forwarding) eq_refl eq_refl _)).
    discriminate.
  - refine (proj1 (proj2 (proj2 (proj2 (proj2
      (stop_releases_resources paused_hook
         (with_recorder_state Paused forwarding) eq_refl eq_refl _)))))).
    discriminate.
  - refine (proj1 (proj2 (proj2 (proj2 (proj2 (proj2 (proj2
      (stop_releases_resources recording_hook forwarding eq_refl eq_refl _)))))))
      1 (or_introl eq_refl)).
    discriminate.
Defined.

(** ** The two intervals *)








(** ** Failure to start, and teardown *)

(** X20.  When the microphone is refused, or the audio graph cannot be built,
    [startRecording()] reports the error through [options.onError] (if
    given) and leaves the hook exactly as it was: nothing is recording, no
    interval runs, no stream or processor is kept. *)
Theorem failed_start_changes_nothing (k : Hook) (granted : MediaStream + string)
  (graph : reply) :
  (exists message, granted = inr message) \/ (exists e, graph = Throws e) ->
  exists reports,
    startRecording granted graph k =
      {| isRecording := isRecording k; isPaused := isPaused k;
         duration := duration k; audioLevel := audioLevel k;
         mediaRecorderRef := mediaRecorderRef k; streamRef := streamRef k;
         processorRef := processorRef k;
         timerRef := timerRef k; levelMonitorRef := levelMonitorRef k;
         has_onDataAvailable := has_onDataAvailable k; has_onError := has_onError k;
         intervals := intervals k; next_interval := next_interval k;
         promises := promises k; delivered := delivered k;
         reported := reported k ++ reports;
         contexts_closed := contexts_closed k |} /\
    length reports = (if has_onError k then 1 else 0).
Proof.
  intros [(message & ->) | (e & ->)].
  - unfold startRecording, report. destruct (has_onError k).
    + exists [message]. split; reflexivity.
    + exists []. rewrite app_nil_r. split; reflexivity.
  - unfold startRecording, report. destruct granted as [stream|message];
      destruct (has_onError k);
      first [ eexists [_]; split; reflexivity
            | exists []; rewrite app_nil_r; split; reflexivity ].
Qed.

Lemma failed_start_changes_nothing_witness :
  exists reports,
    startRecording (inr "Permission denied") Returns (mount false true) =
      {| isRecording := false; isPaused := false; duration := 0; audioLevel := 0;
         mediaRecorderRef := None; streamRef := None; processorRef := None;
         timerRef := None; levelMonitorRef := None;
         has_onDataAvailable := false; has_onError := true;
         intervals := []; next_interval := 1; promises := []; delivered := [];
         reported := [] ++ reports; contexts_closed := 0 |} /\
    length reports = 1.
Proof.
  apply (failed_start_changes_nothing (mount false true)
           (inr "Permission denied") Returns).
  left. exists "Permission denied". reflexivity.
Defined.

Lemma filter_twice {A : Type} (p q : A -> bool) (l : list A) :
  filter p (filter q (filter p (filter q l))) = filter p (filter q l).
Proof.
  induction l as [|a l IH]; cbn; [reflexivity|].
  destruct (q a) eqn:Q; cbn; [|exact IH].
  destruct (p a) eqn:P; cbn; [|exact IH].
  rewrite Q. cbn. rewrite P. now rewrite IH.
Qed.

Lemma filter_idem {A : Type} (p : A -> bool) (l : list A) :
  filter p (filter p l) = filter p l.
Proof.
  induction l as [|a l IH]; cbn; [reflexivity|].
  destruct (p a) eqn:P; cbn; [|exact IH]. rewrite P. now rewrite IH.
Qed.

Lemma clearInterval_twice (r1 r2 : option nat) (l : list (nat * interval_kind)) :
  clearInterval r2 (clearInterval r1 (clearInterval r2 (clearInterval r1 l))) =
  clearInterval r2 (clearInterval r1 l).
Proof.
  destruct r1 as [h1|], r2 as [h2|]; cbn;
    [apply filter_twice | apply filter_idem | apply filter_idem | reflexivity].
Qed.

(** X21.  Teardown is safe to repeat.  The unmount cleanup stops every track,
    drops the processor and clears both intervals; running it twice is the
    same as running it once; and over [stopRecording()] followed by the
    cleanup the audio context is closed at most once. *)
Theorem teardown_is_idempotent (k : Hook) :
  processorRef (unmount k) = None /\
  all_ended (streamRef (unmount k)) /\
  (forall h, timerRef k = Some h \/ levelMonitorRef k = Some h ->
             runs h (unmount k) = false) /\
  unmount (unmount k) = unmount k /\
  contexts_closed (unmount (stopRecording k)) <= S (contexts_closed k) /\
  contexts_closed (unmount (unmount (stopRecording k))) =
    contexts_closed (unmount (stopRecording k)).
Proof.
  split; [reflexivity|].
  split; [apply all_ended_after_stop|].
  split; [apply tracked_intervals_are_cleared|].
  assert (Hidem : forall k0, unmount (unmount k0) = unmount k0).
  { intros k0. unfold unmount at 1 3.
    cbn [isRecording isPaused duration audioLevel mediaRecorderRef streamRef
         processorRef timerRef levelMonitorRef has_onDataAvailable has_onError
         intervals next_interval promises delivered reported contexts_closed
         unmount].
    rewrite clearInterval_twice.
    destruct (streamRef k0) as [tracks|]; cbn [option_map];
      rewrite ?map_map; reflexivity. }
  split; [apply Hidem|]. split; [|now rewrite Hidem].
  unfold unmount, stopRecording.
  destruct (mediaRecorderRef k) as [m|]; cbn.
  - destruct (isRecording k); cbn.
    + destruct (state m); cbn;
        destruct (processorRef k) as [p|]; cbn;
        try destruct (processor_closes p); cbn; lia.
    + destruct (processorRef k) as [p|]; cbn;
        try destruct (processor_closes p); cbn; lia.
  - destruct (processorRef k) as [p|]; cbn;
      try destruct (processor_closes p); cbn; lia.
Qed.

Lemma teardown_is_idempotent_witness :
  unmount (unmount recording_hook) = unmount recording_hook /\
  runs 1 (unmount recording_hook) = false /\
  contexts_closed (unmount (stopRecording recording_hook)) <= 1.
Proof.
  pose proof (teardown_is_idempotent recording_hook) as (_ & _ & H3 & H4 & H5 & _).
  split; [exact H4|]. split; [exact (H3 1 (or_introl eq_refl)) | exact H5].
Defined.

(** ** Chunks during the recording *)

Lemma run_of_chunks (ds : list Blob) :
  forall k, run (map RecorderData ds) k =
            fold_left (fun k d => dataavailable d k) ds k.
Proof.
  induction ds as [|d ds IH]; intros k; [reflexivity|].
  cbn [map]. change (run (RecorderData d :: map RecorderData ds) k)
    with (run (map RecorderData ds) (dataavailable d k)).
  now rewrite IH.
Qed.

(** X22.  From a successful [startRecording()] on, every non-empty chunk the
    recorder emits is handed to [options.onDataAvailable] in the order of
    arrival when that option is given; empty chunks are dropped, without the
    option nothing is handed over, and in no case does a chunk touch the
    recording state, the intervals or a promise. *)
Theorem chunks_are_forwarded_while_recording (stream : MediaStream)
  (ds : list Blob) (k : Hook) :
  delivered (run (map RecorderData ds) (startRecording (inl stream) Returns k)) =
    delivered k ++ (if has_onDataAvailable k then filter nonempty ds else []) /\
  promises (run (map RecorderData ds) (startRecording (inl stream) Returns k)) =
    promises k /\
  isRecording (run (map RecorderData ds) (startRecording (inl stream) Returns k)) =
    true /\
  intervals (run (map RecorderData ds) (startRecording (inl stream) Returns k)) =
    intervals (startRecording (inl stream) Returns k).
Proof.
  rewrite run_of_chunks.
  destruct (RecorderFacts.chunks_before_stop_are_forwarded ds
              (startRecording (inl stream) Returns k) eq_refl)
    as (_ & H2 & H3 & _ & _ & _ & _ & H8 & H9).
  cbv zeta in *. repeat split; assumption.
Qed.

End RecorderLifecycle.

(** * The level meter and the clock face

    [AudioProcessor.getAverageFrequency] feeds the level meter of the
    recording screens, and [formatDuration] their clock. *)

Module DisplayFacts.
Import Js Recorder Display.

Lemma fold_sum_bound (l : list Byte.byte) (acc : nat) :
  fold_left (fun a x => a + Byte.to_nat x) l acc <= acc + 255 * length l.
Proof.
  revert acc. induction l as [|b l IH]; intros acc; cbn [fold_left length].
  - lia.
  - specialize (IH (acc + Byte.to_nat b)).
    pose proof (Byte.to_nat_bounded b). lia.
Qed.

(** X23.  With an analyser attached and at least one frequency bin,
    [getAverageFrequency] returns, and the average it returns lies between
    0 and 255, the range the twenty bars of the level meter divide. *)
Theorem average_level_is_a_byte_value
  (p : AudioProcessor) (snapshot : list Byte.byte) :
  snapshot <> [] ->
  exists q, getAverageFrequency p snapshot = Normal q /\
            QArith_base.Qle (QArith_base.Qmake 0 1) q /\
            QArith_base.Qle q (QArith_base.Qmake 255 1).
Proof.
  intros Hne. unfold getAverageFrequency, getFrequencyData.
  destruct (analyser p); cbn [negb].
  - destruct snapshot as [|b rest]; [congruence|].
    cbn [reduce_sum]. eexists. split; [reflexivity|].
    pose proof (fold_sum_bound rest (Byte.to_nat b)) as B.
    pose proof (Byte.to_nat_bounded b) as Bb.
    unfold QArith_base.Qle. cbn [QArith_base.Qnum QArith_base.Qden length].
    rewrite <- positive_nat_Z, Nat2Pos.id by discriminate.
    split; lia.
  - eexists. split; [reflexivity|].
    unfold QArith_base.Qle. cbn. split; lia.
Qed.

Lemma average_level_is_a_byte_value_witness :
  exists q,
    getAverageFrequency initialized_processor [Byte.x10; Byte.xff; Byte.x00]
      = Normal q /\
    QArith_base.Qle (QArith_base.Qmake 0 1) q /\
    QArith_base.Qle q (QArith_base.Qmake 255 1).
Proof.
  apply (average_level_is_a_byte_value initialized_processor
           [Byte.x10; Byte.xff; Byte.x00]).
  discriminate.
Defined.

Lemma string_of_uint_inj (d d' : Decimal.uint) :
  NilEmpty.string_of_uint d = NilEmpty.string_of_uint d' -> d = d'.
Proof.
  intros H.
  assert (E : Some d = Some d').
  { rewrite <- (NilEmpty.usu d), <- (NilEmpty.usu d'), H. reflexivity. }
  congruence.
Qed.

Lemma toString_nonempty (n : nat) : String.length (toString n) <> 0.
Proof.
  intros L. destruct (toString n) eqn:E; [|discriminate].
  unfold toString in E.
  pose proof (NilEmpty.usu (Nat.to_uint n)) as U. rewrite E in U.
  cbn in U. injection U as U.
  pose proof (Unsigned.of_to n) as O. rewrite <- U in O. cbn in O.
  subst n. discriminate E.
Qed.

(** Reading a padded field back as a number gives the number it shows. *)
Lemma padded_field_reads_back (n : nat) :
  option_map Nat.of_uint (NilEmpty.uint_of_string (padStart2 (toString n)))
  = Some n.
Proof.
  pose proof (toString_nonempty n) as L.
  unfold padStart2.
  destruct (String.length (toString n)) as [|[|k]]; [congruence| |].
  - unfold toString.
    change (NilEmpty.uint_of_string ("0" ++ ?s))
      with (match NilEmpty.uint_of_string s with
            | Some d => Some (Decimal.D0 d) | None => None end).
    rewrite NilEmpty.usu. cbn [option_map].
    change (Nat.of_uint (Decimal.D0 ?d)) with (Nat.of_uint d).
    rewrite Unsigned.of_to. reflexivity.
  - unfold toString. rewrite NilEmpty.usu. cbn [option_map].
    rewrite Unsigned.of_to. reflexivity.
Qed.

Lemma padded_field_inj (n m : nat) :
  padStart2 (toString n) = padStart2 (toString m) -> n = m.
Proof.
  intros H.
  assert (E : Some n = Some m).
  { rewrite <- (padded_field_reads_back n), <- (padded_field_reads_back m), H.
    reflexivity. }
  congruence.
Qed.

Lemma two_digit_field (n : nat) :
  n < 100 -> String.length (padStart2 (toString n)) = 2.
Proof.
  intros H.
  do 100 (destruct n as [|n]; [reflexivity|]).
  lia.
Qed.

Lemma string_length_app (a b : string) :
  String.length (a ++ b) = String.length a + String.length b.
Proof. induction a as [|c a IH]; cbn; [reflexivity | now rewrite IH]. Qed.

Lemma string_app_inj (a b x y : string) :
  String.length a = String.length b -> (a ++ x = b ++ y)%string ->
  a = b /\ x = y.
Proof.
  revert b. induction a as [|c a IH]; intros [|d b] L E; try discriminate.
  - split; [reflexivity | exact E].
  - cbn in L, E. injection L as L. injection E as Ec E.
    destruct (IH b L E) as [-> ->]. subst. split; reflexivity.
Qed.

Lemma clock_fields (a : nat) :
  a = 3600 * (a / 3600) + 60 * ((a mod 3600) / 60) + a mod 60.
Proof.
  pose proof (Nat.div_mod_eq a 3600) as H1.
  pose proof (Nat.div_mod_eq (a mod 3600) 60) as H2.
  assert (H3 : (a mod 3600) mod 60 = a mod 60).
  { change 3600 with (60 * 60). rewrite Nat.Div0.mod_mul_r.
    rewrite (Nat.mul_comm 60 ((a / 60) mod 60)), Nat.Div0.mod_add.
    apply Nat.Div0.mod_mod. }
  lia.
Qed.

(** X24.  Below a hundred hours the clock face is always the eight
    characters of two digits, colon, two digits, colon, two digits. *)
Theorem clock_face_has_eight_characters (seconds : nat) :
  seconds / 3600 < 100 ->
  String.length (formatDuration seconds) = 8.
Proof.
  intros H. unfold formatDuration. cbv zeta.
  rewrite !string_length_app.
  rewrite (two_digit_field _ H).
  rewrite (two_digit_field ((seconds mod 3600) / 60)).
  2:{ pose proof (Nat.mod_upper_bound seconds 3600 ltac:(discriminate)).
      apply Nat.Div0.div_lt_upper_bound. lia. }
  rewrite (two_digit_field (seconds mod 60)).
  2:{ pose proof (Nat.mod_upper_bound seconds 60 ltac:(discriminate)). lia. }
  reflexivity.
Qed.

Lemma clock_face_has_eight_characters_witness :
  String.length (formatDuration 3725) = 8.
Proof.
  apply (clock_face_has_eight_characters 3725).
  vm_compute. lia.
Defined.

Lemma formatDuration_inj (a b : nat) :
  formatDuration a = formatDuration b -> a = b.
Proof.
  unfold formatDuration. cbv zeta. intros E.
  assert (Ma : String.length (padStart2 (toString ((a mod 3600) / 60))) = 2).
  { apply two_digit_field.
    pose proof (Nat.mod_upper_bound a 3600 ltac:(discriminate)).
    apply Nat.Div0.div_lt_upper_bound. lia. }
  assert (Mb : String.length (padStart2 (toString ((b mod 3600) / 60))) = 2).
  { apply two_digit_field.
    pose proof (Nat.mod_upper_bound b 3600 ltac:(discriminate)).
    apply Nat.Div0.div_lt_upper_bound. lia. }
  assert (Sa : String.length (padStart2 (toString (a mod 60))) = 2).
  { apply two_digit_field.
    pose proof (Nat.mod_upper_bound a 60 ltac:(discriminate)). lia. }
  assert (Sb : String.length (padStart2 (toString (b mod 60))) = 2).
  { apply two_digit_field.
    pose proof (Nat.mod_upper_bound b 60 ltac:(discriminate)). lia. }
  assert (L : String.length (padStart2 (toString (a / 3600)))
              = String.length (padStart2 (toString (b / 3600)))).
  { apply (f_equal String.length) in E.
    rewrite !string_length_app in E. rewrite Ma, Mb, Sa, Sb in E.
    change (String.length ":") with 1 in E. lia. }
  destruct (string_app_inj _ _ _ _ L E) as [Eh E1].
  destruct (string_app_inj ":" ":" _ _ eq_refl E1) as [_ E2].
  destruct (string_app_inj _ _ _ _ (eq_trans Ma (eq_sym Mb)) E2) as [Em E3].
  destruct (string_app_inj ":" ":" _ _ eq_refl E3) as [_ E4].
  pose proof (padded_field_inj _ _ Eh) as Fh.
  pose proof (padded_field_inj _ _ Em) as Fm.
  pose proof (padded_field_inj _ _ E4) as Fs.
  pose proof (clock_fields a) as Ca.
  rewrite Fh, Fm, Fs in Ca.
  exact (eq_trans Ca (eq_sym (clock_fields b))).
Qed.

(** X25.  The clock face determines the elapsed seconds: two different
    durations are never shown as the same text. *)
Theorem clock_face_is_injective (a b : nat) :
  a <> b -> formatDuration a <> formatDuration b.
Proof.
  intros Hab E. apply Hab. exact (formatDuration_inj a b E).
Qed.

Lemma clock_face_is_injective_witness :
  formatDuration 59 <> formatDuration 3540.
Proof.
  apply (clock_face_is_injective 59 3540). discriminate.
Defined.

End DisplayFacts.
